(** * Client-side image compression utility: LQBZ/Anli/image-compress.js

    A shallow embedding of [compressImage], [applyImageCompression],
    [compressAllImages] and [compressImageForCarousel], and the properties
    of the utility's contract.

    Conventions of the embedding.
    - JS numbers are rationals ([Q]).  The intrinsic dimensions of a
      decoded image ([img.width], [img.height]) are non-negative integers
      ([N]).  Comparisons are exact.  The quotients of lines 53 and 58 are
      taken exactly, where the program rounds them to the nearest double:
      what is stated of a scaled dimension is an order relation that this
      rounding keeps, never its last digit nor the pixels it truncates
      to.
    - JS strings are [string]; [toLowerCase] acts on the letters A-Z, the
      only characters whose lower case can take part in [".png"].
    - The browser (network, canvas) is a record of functions, [Browser];
      the selector engine is a parameter of [compressAllImages].  A
      promise is observed through its settlement,
      [promise]; the asynchronous retry loop of [compressImage] is bounded
      by a number of rounds, and a promise that is not settled within the
      rounds given is [Pending].
    - Every call reports the browser operations it performed as a list of
      [event]s, in program order.  The first load of [compressImage] is
      issued by the executor of its promise, synchronously (line 116), the
      rest by its handlers: an element's [load] event lists the loads of
      the calls it starts before what their handlers do.
    - An element holds what the program reads and assigns: [src],
      [dataset] and [style] give, for each name, the string last assigned
      to it (how the browser resolves a URL, serialises a style value or
      expands a shorthand into its longhands is not modelled), and
      [complete] the flag as [compressAllImages] reads it, set by the
      [load] event. *)

From Stdlib Require Import Ascii String QArith Qround Lia Lqa.
From stdpp Require Import gmap strings list fin_maps.

Local Open Scope string_scope.
Local Open Scope list_scope.

(** ** JS strings *)

Module JsString.

(** [s.startsWith(p)] *)
Definition startsWith (s p : string) : bool := String.prefix p s.

(** [s.includes(p)] *)
Fixpoint includes (s p : string) : bool :=
  String.prefix p s ||
  match s with
  | EmptyString => false
  | String _ t => includes t p
  end.

(** [s.endsWith(p)] (used by the specification's wording only). *)
Fixpoint endsWith (s p : string) : bool :=
  String.eqb s p ||
  match s with
  | EmptyString => false
  | String _ t => endsWith t p
  end.

Definition lower_char (c : ascii) : ascii :=
  let n := nat_of_ascii c in
  if (65 <=? n)%nat && (n <=? 90)%nat then ascii_of_nat (n + 32) else c.

(** [s.toLowerCase()] *)
Fixpoint toLowerCase (s : string) : string :=
  match s with
  | EmptyString => EmptyString
  | String c t => String (lower_char c) (toLowerCase t)
  end.

End JsString.

(** ** JS numbers *)

Module JsNum.

Local Open Scope Q_scope.

(** [a > b] *)
Definition gt (a b : Q) : bool := negb (Qle_bool a b).

(** [a < b] *)
Definition lt (a b : Q) : bool := negb (Qle_bool b a).

(** A non-negative integer read as a number. *)
Definition of_N (n : N) : Q := inject_Z (Z.of_N n).

End JsNum.

(** ** The size computation of [img.onload] (lines 36-62) *)

Section Resize.

Local Open Scope Q_scope.

(** Line 41: [width > maxWidth || height > maxHeight]. *)
Definition shouldResize (width height maxWidth maxHeight : Q) : bool :=
  JsNum.gt width maxWidth || JsNum.gt height maxHeight.

(** Line 43: [!shouldResize && width * height < 500000]. *)
Definition isSmall (width height maxWidth maxHeight : Q) : bool :=
  negb (shouldResize width height maxWidth maxHeight)
  && JsNum.lt (width * height) 500000.

(** Lines 50-62: the pair [(width, height)] after the scaling block. *)
Definition scaledSize (width height maxWidth maxHeight : Q) : Q * Q :=
  if shouldResize width height maxWidth maxHeight then
    if JsNum.gt width height then
      if JsNum.gt width maxWidth
      then (maxWidth, (height * maxWidth) / width)
      else (width, height)
    else
      if JsNum.gt height maxHeight
      then ((width * maxHeight) / height, maxHeight)
      else (width, height)
  else (width, height).

(** The three ways out of the scaling block: the width is clamped and
    the height scaled, the height is clamped and the width scaled, or
    the size is left as it is. *)
Inductive scaling (maxWidth maxHeight w h : Q) : Q * Q -> Prop :=
| ClampWidth :
    JsNum.gt w h = true -> JsNum.gt w maxWidth = true ->
    scaling maxWidth maxHeight w h (maxWidth, h * maxWidth / w)
| ClampHeight :
    JsNum.gt w h = false -> JsNum.gt h maxHeight = true ->
    scaling maxWidth maxHeight w h (w * maxHeight / h, maxHeight)
| Unscaled :
    (if JsNum.gt w h then JsNum.gt w maxWidth else JsNum.gt h maxHeight)
    = false ->
    scaling maxWidth maxHeight w h (w, h).

(** The scaling block changed the size. *)
Definition resizes (width height maxWidth maxHeight : Q) : bool :=
  let '(width', height') := scaledSize width height maxWidth maxHeight in
  negb (Qeq_bool width' width && Qeq_bool height' height).

End Resize.

(** ** The browser *)

(** [canvas.toDataURL] formats: ['image/jpeg'] and ['image/png']. *)
Inductive format := Jpeg | Png.

(** Outcome of assigning [img.src]: the [error] event, or the [load] event
    with the intrinsic size of the decoded image. *)
Inductive load_result :=
| LoadError
| Loaded (width height : N).

(** Browser operations, in the order the program performs them. *)
Inductive event :=
| EvLoad (url : string) (anonymous : bool)
    (* [img.src = url], with or without [crossOrigin = 'anonymous'] *)
| EvCanvas (width height : Q)
    (* [canvas.width = width; canvas.height = height] *)
| EvDraw (width height : Q)
    (* [ctx.drawImage(img, 0, 0, width, height)] *)
| EvEncode (fmt : format) (quality : option Q)
    (* [canvas.toDataURL(fmt, quality)] *)
| EvWarn.
    (* [console.warn(...)] *)

Record Browser := {
  (** [window.location.protocol + '//' + window.location.host] *)
  origin : string;
  (** The network: the outcome of the load issued by the [attempt]-th
      nested call of [compressImage] for [url], with or without the
      anonymous cross-origin mode. *)
  load : nat -> string -> bool -> load_result;
  (** [canvas.getContext('2d')] returns a context ([true]) or [null]. *)
  getContext2d : Q -> Q -> bool;
  (** [ctx.drawImage] returns ([true]) or throws. *)
  drawImage : string -> Q -> Q -> bool;
  (** [canvas.toDataURL] returns a data URL, or throws ([None]), as it does
      on a canvas tainted by a cross-origin image. *)
  toDataURL : string -> Q -> Q -> format -> option Q -> option string
}.

(** Settlement of a promise. *)
Inductive promise (A : Type) :=
| Pending
| Resolved (value : A)
| Rejected.
Arguments Pending {A}.
Arguments Resolved {A} value.
Arguments Rejected {A}.

(** ** Code that may throw, and logs what it does *)

Module Try.

(** [None] is a thrown exception; the events are those performed up to
    the throw. *)
Definition t (A : Type) : Type := option A * list event.

Definition ret {A} (a : A) : t A := (Some a, []).
Definition throw {A} : t A := (None, []).
Definition emit (e : event) : t unit := (Some tt, [e]).

Definition bind {A B} (m : t A) (k : A -> t B) : t B :=
  match m with
  | (Some a, evs) => let '(r, evs') := k a in (r, evs ++ evs')
  | (None, evs) => (None, evs)
  end.

(** [try { m } catch (e) { h }], where the handler yields a value. *)
Definition catch {A} (m : t A) (h : A * list event) : A * list event :=
  match m with
  | (Some a, evs) => (a, evs)
  | (None, evs) => (h.1, evs ++ h.2)
  end.

End Try.

Notation "'do' m 'then' k" := (Try.bind m (fun _ => k))
  (at level 10, m at level 100, k at level 200,
   format "'[v' 'do'  m  'then' '/' k ']'").

(** ** [compressImage] (lines 14-118) *)

Section CompressImage.

Variable B : Browser.

(** Lines 22-28: whether [img.crossOrigin = 'anonymous'] is set. *)
Definition crossOriginAnonymous (imageSrc : string) : bool :=
  negb (JsString.startsWith imageSrc "data:")
  && negb (JsString.startsWith imageSrc "/")
  && negb (JsString.startsWith imageSrc "./")
  && JsString.includes imageSrc "://"
  && negb (JsString.startsWith imageSrc (origin B)).

(** Lines 78-85: the format and the quality handed to [toDataURL]. *)
Definition outputFormat (imageSrc : string) (resize : bool) : format :=
  if JsString.includes (JsString.toLowerCase imageSrc) ".png" && negb resize
  then Png else Jpeg.

Definition outputQuality (imageSrc : string) (resize : bool) (quality : Q)
  : option Q :=
  match outputFormat imageSrc resize with
  | Png => None
  | Jpeg => Some quality
  end.

(** Lines 64-88: the body of the [try] block after the size is known. *)
Definition encode (imageSrc : string) (resize : bool) (quality : Q)
    (width height : Q) : Try.t string :=
  do Try.emit (EvCanvas width height) then
  do (if getContext2d B width height then Try.ret tt else Try.throw) then
  do Try.emit (EvDraw width height) then
  do (if drawImage B imageSrc width height then Try.ret tt else Try.throw) then
  do Try.emit (EvEncode (outputFormat imageSrc resize)
                        (outputQuality imageSrc resize quality)) then
  match toDataURL B imageSrc width height (outputFormat imageSrc resize)
                  (outputQuality imageSrc resize quality) with
  | Some compressedDataUrl => Try.ret compressedDataUrl
  | None => Try.throw
  end.

(** Lines 33-93: [img.onload] for an image of intrinsic size [w] x [h];
    the value the promise is resolved with, and the events. *)
Definition onload (imageSrc : string) (maxWidth maxHeight quality : Q)
    (w h : N) : string * list event :=
  let width := JsNum.of_N w in
  let height := JsNum.of_N h in
  let resize := shouldResize width height maxWidth maxHeight in
  if isSmall width height maxWidth maxHeight then (imageSrc, [])
  else
    let '(width', height') := scaledSize width height maxWidth maxHeight in
    Try.catch (encode imageSrc resize quality width' height')
              (imageSrc, [EvWarn]).

(** Lines 14-118.  [rounds] bounds the nesting of calls; [attempt] counts
    the nested calls made so far. *)
Fixpoint compressImage_rec (rounds attempt : nat) (imageSrc : string)
    (maxWidth maxHeight quality : Q) : promise string * list event :=
  match rounds with
  | O => (Pending, [])
  | S rounds' =>
    let anonymous := crossOriginAnonymous imageSrc in
    match load B attempt imageSrc anonymous with
    | Loaded w h =>
        let '(v, evs) := onload imageSrc maxWidth maxHeight quality w h in
        (Resolved v, EvLoad imageSrc anonymous :: evs)
    | LoadError =>
        if anonymous then
          (* retryImg, without crossOrigin *)
          match load B attempt imageSrc false with
          | Loaded _ _ =>
              let '(p, evs) :=
                compressImage_rec rounds' (S attempt) imageSrc
                                  maxWidth maxHeight quality in
              (match p with
               | Resolved v => Resolved v          (* .then(resolve) *)
               | Rejected => Resolved imageSrc     (* .catch(...) *)
               | Pending => Pending
               end,
               EvLoad imageSrc true :: EvLoad imageSrc false :: evs)
          | LoadError =>
              (Resolved imageSrc,
               [EvLoad imageSrc true; EvLoad imageSrc false; EvWarn])
          end
        else (Resolved imageSrc, [EvLoad imageSrc false; EvWarn])
    end
  end.

Definition compressImage (rounds : nat) (imageSrc : string)
    (maxWidth maxHeight quality : Q) : promise string * list event :=
  compressImage_rec rounds 0 imageSrc maxWidth maxHeight quality.

(** Line 116: the load that the executor of the promise issues before
    [compressImage] returns to its caller. *)
Definition executorLoad (imageSrc : string) : event :=
  EvLoad imageSrc (crossOriginAnonymous imageSrc).

(** What the handlers of [compressImage] do after that: the settlement of
    the promise, and the events that follow the executor's load. *)
Definition compressImage_handlers (rounds : nat) (imageSrc : string)
    (maxWidth maxHeight quality : Q) : promise string * list event :=
  let r := compressImage rounds imageSrc maxWidth maxHeight quality in
  (r.1, tail r.2).

End CompressImage.

(** ** Options and image elements *)

(** An options object; [None] is an absent property. *)
Record Options := {
  opt_maxWidth : option Q;
  opt_maxHeight : option Q;
  opt_quality : option Q;
  opt_showLoading : option bool;
  opt_selector : option string
}.

(** [{}] *)
Definition noOptions : Options :=
  {| opt_maxWidth := None; opt_maxHeight := None; opt_quality := None;
     opt_showLoading := None; opt_selector := None |}.

(** A [load] listener registered by [compressAllImages] (lines 200-202):
    it calls [applyImageCompression(this, handlerOptions)]. *)
Record Listener := {
  once : bool;
  handlerOptions : Options
}.

(** An [HTMLImageElement], as far as the utility reads and writes it:
    [src] is the string read on line 138 and, once line 155 has run, the
    string assigned there; each data attribute and each style property is
    the string last assigned to it; [complete] is the flag read on line
    196. *)
Record Element := {
  src : string;
  complete : bool;
  classList : list string;
  dataset : gmap string string;
  style : gmap string string;
  listeners : list Listener
}.

Definition set_src (v : string) (e : Element) : Element :=
  {| src := v; complete := complete e; classList := classList e;
     dataset := dataset e; style := style e; listeners := listeners e |}.

Definition set_dataset (k v : string) (e : Element) : Element :=
  {| src := src e; complete := complete e; classList := classList e;
     dataset := <[k := v]> (dataset e); style := style e;
     listeners := listeners e |}.

Definition set_style (k v : string) (e : Element) : Element :=
  {| src := src e; complete := complete e; classList := classList e;
     dataset := dataset e; style := <[k := v]> (style e);
     listeners := listeners e |}.

Definition addEventListener (l : Listener) (e : Element) : Element :=
  {| src := src e; complete := complete e; classList := classList e;
     dataset := dataset e; style := style e;
     listeners := listeners e ++ [l] |}.

(** How a call of an async function on an element ends: it returned, or it
    is still suspended at its [await]. *)
Inductive run :=
| Returned (e : Element)
| Suspended (e : Element).

Definition element_of (r : run) : Element :=
  match r with Returned e | Suspended e => e end.

(** Two outcomes of the same kind. *)
Definition same_outcome (r r' : run) : Prop :=
  match r, r' with
  | Returned _, Returned _ | Suspended _, Suspended _ => True
  | _, _ => False
  end.

(** What [applyImageCompression] never writes. *)
Definition same_frame (e e' : Element) : Prop :=
  listeners e' = listeners e
  /\ complete e' = complete e
  /\ classList e' = classList e.

(** ** [applyImageCompression] (lines 125-169) *)

(** A call suspended at the [await] of line 152: the local variables the
    continuation still reads. *)
Record Awaiting := {
  originalSrc : string;
  maxWidth : Q;
  maxHeight : Q;
  quality : Q;
  showLoading : bool
}.

Section ApplyImageCompression.

Variable B : Browser.

(** Lines 126-152: the part that runs synchronously, up to the [await];
    [None] when the call returned before reaching it.  The call of
    [compressImage] on line 152 runs the executor of its promise, which
    issues the first load, before the [await] suspends. *)
Definition applyImageCompression_begin (imgElement : Element)
    (options : Options) : Element * option Awaiting * list event :=
  if decide (dataset imgElement !! "compressed" = Some "true")
  then (imgElement, None, [])
  else if JsString.startsWith (src imgElement) "data:image"
  then (imgElement, None, [])
  else
    let a := {| originalSrc := src imgElement;
                maxWidth := default 1920%Q (opt_maxWidth options);
                maxHeight := default 1920%Q (opt_maxHeight options);
                quality := default 0.8%Q (opt_quality options);
                showLoading := default true (opt_showLoading options) |} in
    (if showLoading a then set_style "opacity" "0.5" imgElement
     else imgElement,
     Some a,
     [executorLoad B (originalSrc a)]).

(** Lines 150-168: the continuation, run on the element as it is when
    the promise of [compressImage] settles; its events are those of the
    handlers of [compressImage]. *)
Definition applyImageCompression_resume (rounds : nat) (a : Awaiting)
    (imgElement : Element) : run * list event :=
  match compressImage_handlers B rounds (originalSrc a) (maxWidth a)
                               (maxHeight a) (quality a) with
  | (Resolved compressedSrc, evs) =>
      let marked :=
        set_dataset "originalSrc" (originalSrc a)
          (set_dataset "compressed" "true"
            (set_src compressedSrc imgElement)) in
      (Returned
         (if showLoading a
          then set_style "transition" "opacity 0.5s ease"
                 (set_style "opacity" "1" marked)
          else marked),
       evs)
  | (Rejected, evs) =>
      (Returned (set_style "opacity" "1" imgElement), evs ++ [EvWarn])
  | (Pending, evs) => (Suspended imgElement, evs)
  end.

(** An awaited call, with nothing else touching the element meanwhile. *)
Definition applyImageCompression (rounds : nat) (imgElement : Element)
    (options : Options) : run * list event :=
  match applyImageCompression_begin imgElement options with
  | (e, None, evs) => (Returned e, evs)
  | (e, Some a, evs) =>
      let '(r, evs') := applyImageCompression_resume rounds a e in
      (r, evs ++ evs')
  end.

(** Lines 212-225. *)
Definition compressImageForCarousel (rounds : nat) (imgElement : Element)
    (options : Options) : run * list event :=
  applyImageCompression rounds imgElement
    {| opt_maxWidth := Some (default 1920%Q (opt_maxWidth options));
       opt_maxHeight := Some (default 1920%Q (opt_maxHeight options));
       opt_quality := Some (default 0.8%Q (opt_quality options));
       opt_showLoading := Some false;
       opt_selector := None |}.

End ApplyImageCompression.

(** ** [compressAllImages] (lines 175-205) and the [load] event *)

Section CompressAllImages.

Variable B : Browser.

(** The selector engine behind [document.querySelectorAll]. *)
Variable matchesSelector : string -> Element -> bool.

(** Lines 176-181. *)
Definition defaultOptions : Options :=
  {| opt_maxWidth := Some 1920%Q; opt_maxHeight := Some 1920%Q;
     opt_quality := Some 0.8%Q; opt_showLoading := None;
     opt_selector := Some "img" |}.

Definition orElse {A} (x y : option A) : option A :=
  match x with Some _ => x | None => y end.

(** [{ ...a, ...b }] *)
Definition spread (a b : Options) : Options :=
  {| opt_maxWidth := orElse (opt_maxWidth b) (opt_maxWidth a);
     opt_maxHeight := orElse (opt_maxHeight b) (opt_maxHeight a);
     opt_quality := orElse (opt_quality b) (opt_quality a);
     opt_showLoading := orElse (opt_showLoading b) (opt_showLoading a);
     opt_selector := orElse (opt_selector b) (opt_selector a) |}.

(** [document.querySelectorAll(sel)]: the positions, in document order,
    of the elements that match. *)
Definition querySelectorAll (sel : string) (doc : list Element) : list nat :=
  List.filter (fun i => match doc !! i with
                        | Some e => matchesSelector sel e
                        | None => false
                        end)
              (seq 0 (length doc)).

(** [img.classList.contains(c)] *)
Definition contains (c : string) (classes : list string) : bool :=
  bool_decide (c ∈ classes).

(** Lines 189-204: the callback of [images.forEach].  The call of
    [applyImageCompression] is not awaited; it touches no element but
    its own, and is run here up to its settlement, its events listed
    together: the trace of [compressAllImages] goes element by element. *)
Definition visitImage (rounds : nat) (finalOptions : Options) (img : Element)
  : Element * list event :=
  if contains "logo" (classList img) then (img, [])
  else if complete img then
    let '(r, evs) := applyImageCompression B rounds img finalOptions in
    (element_of r, evs)
  else
    (addEventListener {| once := true; handlerOptions := finalOptions |} img,
     []).

Definition forEach (f : Element -> Element * list event)
    (images : list nat) (doc : list Element) : list Element * list event :=
  foldl (fun st i =>
           match st.1 !! i with
           | Some img => let '(img', evs) := f img in
                         (<[i := img']> st.1, st.2 ++ evs)
           | None => st
           end)
        (doc, []) images.

Definition compressAllImages (rounds : nat) (doc : list Element)
    (options : Options) : list Element * list event :=
  let finalOptions := spread defaultOptions options in
  let images :=
    querySelectorAll (default "undefined" (opt_selector finalOptions)) doc in
  forEach (visitImage rounds finalOptions) images doc.

(** The browser fires [load] on an element: the element is complete and
    the listeners registered with [{ once: true }] are removed. *)
Definition loadedElement (img : Element) : Element :=
  {| src := src img; complete := true; classList := classList img;
     dataset := dataset img; style := style img;
     listeners := List.filter (fun l => negb (once l)) (listeners img) |}.

(** The listeners then run in registration order, each up to its
    [await]. *)
Definition runListeners (ls : list Listener) (img : Element)
  : Element * list Awaiting * list event :=
  foldl (fun st l =>
           let '(e, a, evs) :=
             applyImageCompression_begin B st.1.1 (handlerOptions l) in
           (e, st.1.2 ++ option_list a, st.2 ++ evs))
        (img, [], []) ls.

(** The suspended calls resume in the order they were started. *)
Definition resumeAll (rounds : nat) (calls : list Awaiting) (img : Element)
  : Element * list event :=
  foldl (fun st a =>
           let '(r, evs) := applyImageCompression_resume B rounds a st.1 in
           (element_of r, st.2 ++ evs))
        (img, []) calls.

Definition dispatchLoad (rounds : nat) (img : Element)
  : Element * list event :=
  let started := runListeners (listeners img) (loadedElement img) in
  let resumed := resumeAll rounds started.1.2 started.1.1 in
  (resumed.1, started.2 ++ resumed.2).

End CompressAllImages.

(** ** Example browsers and elements, used to exercise the statements *)

Module Demo.

Definition dataUrl (f : format) : string :=
  match f with
  | Png => "data:image/png;base64,iVBORw0KGgo="
  | Jpeg => "data:image/jpeg;base64,/9j/4AAQ"
  end.

(** Every image loads, in either mode, as 1000 x 900; the canvas works. *)
Definition friendly : Browser :=
  {| origin := "https://example.org";
     load := fun _ _ _ => Loaded 1000 900;
     getContext2d := fun _ _ => true;
     drawImage := fun _ _ _ => true;
     toDataURL := fun _ _ _ f _ => Some (dataUrl f) |}.

(** Every image loads as a small 400 x 300 picture. *)
Definition thumbnails : Browser :=
  {| origin := "https://example.org";
     load := fun _ _ _ => Loaded 400 300;
     getContext2d := fun _ _ => true;
     drawImage := fun _ _ _ => true;
     toDataURL := fun _ _ _ f _ => Some (dataUrl f) |}.

(** No image loads at all. *)
Definition offline : Browser :=
  {| origin := "https://example.org";
     load := fun _ _ _ => LoadError;
     getContext2d := fun _ _ => true;
     drawImage := fun _ _ _ => true;
     toDataURL := fun _ _ _ f _ => Some (dataUrl f) |}.

(** The image server sends no CORS headers: a load in anonymous
    cross-origin mode fails, a plain load succeeds. *)
Definition noCors : Browser :=
  {| origin := "https://example.org";
     load := fun _ _ anonymous =>
               if anonymous then LoadError else Loaded 1000 900;
     getContext2d := fun _ _ => true;
     drawImage := fun _ _ _ => true;
     toDataURL := fun _ _ _ f _ => Some (dataUrl f) |}.

(** Every image loads as 1000 x 900, but the canvas is tainted:
    [toDataURL] throws. *)
Definition tainted : Browser :=
  {| origin := "https://example.org";
     load := fun _ _ _ => Loaded 1000 900;
     getContext2d := fun _ _ => true;
     drawImage := fun _ _ _ => true;
     toDataURL := fun _ _ _ _ _ => None |}.

(** The image server sends no CORS headers, and goes down after the
    first plain load: every anonymous load fails, the plain load succeeds
    for the first call of [compressImage] and fails after it. *)
Definition flaky : Browser :=
  {| origin := "https://example.org";
     load := fun attempt _ anonymous =>
               if anonymous then LoadError
               else if Nat.eqb attempt 0 then Loaded 1000 900 else LoadError;
     getContext2d := fun _ _ => true;
     drawImage := fun _ _ _ => true;
     toDataURL := fun _ _ _ f _ => Some (dataUrl f) |}.

Definition image (url : string) (loaded : bool) (classes : list string)
  : Element :=
  {| src := url; complete := loaded; classList := classes;
     dataset := ∅; style := ∅; listeners := [] |}.

(** A selector engine that knows the selector ['img'] only. *)
Definition selectImg (sel : string) (e : Element) : bool :=
  String.eqb sel "img".

(** A page: a logo, a banner that has loaded, a slide that has not. *)
Definition page : list Element :=
  [image "/img/logo.png" true ["logo"];
   image "/img/banner.jpg" true [];
   image "/img/slide.jpg" false ["slide"]].

End Demo.

(** * Properties *)

(** ** Numbers *)

Section NumberFacts.

Local Open Scope Q_scope.

Lemma gt_true (a b : Q) : JsNum.gt a b = true <-> b < a.
Proof.
  unfold JsNum.gt. rewrite negb_true_iff, <- not_true_iff_false, Qle_bool_iff.
  split; [apply Qnot_le_lt | apply Qlt_not_le].
Qed.

Lemma gt_false (a b : Q) : JsNum.gt a b = false <-> a <= b.
Proof.
  unfold JsNum.gt. rewrite negb_false_iff. apply Qle_bool_iff.
Qed.

Lemma lt_true (a b : Q) : JsNum.lt a b = true <-> a < b.
Proof. unfold JsNum.lt. apply (gt_true b a). Qed.

Lemma lt_false (a b : Q) : JsNum.lt a b = false <-> b <= a.
Proof. unfold JsNum.lt. apply (gt_false b a). Qed.

Lemma of_N_nonneg (n : N) : 0 <= JsNum.of_N n.
Proof.
  unfold JsNum.of_N. change 0 with (inject_Z 0).
  rewrite <- Zle_Qle. lia.
Qed.

(** Scaling by a ratio of at most one stays below the bound. *)
Lemma scale_le (a b m : Q) : 0 <= m -> a <= b -> 0 < b -> a * m / b <= m.
Proof.
  intros Hm Hab Hb. apply Qle_shift_div_r; [exact Hb|].
  rewrite (Qmult_comm m b). apply Qmult_le_compat_r; assumption.
Qed.

End NumberFacts.

(** ** The [onload] handler *)

Section OnloadFacts.

Variable B : Browser.
Variables (imageSrc : string) (maxWidth maxHeight quality : Q).

Local Open Scope Q_scope.

Lemma of_N_mult (a b : N) :
  JsNum.of_N a * JsNum.of_N b == JsNum.of_N (a * b).
Proof.
  unfold JsNum.of_N. rewrite N2Z.inj_mul, inject_Z_mult. reflexivity.
Qed.

Lemma area_small (w h : N) :
  JsNum.lt (JsNum.of_N w * JsNum.of_N h) 500000 = true <-> (w * h < 500000)%N.
Proof.
  rewrite lt_true, of_N_mult. unfold JsNum.of_N.
  change 500000 with (inject_Z 500000). rewrite <- Zlt_Qlt. lia.
Qed.

Lemma shouldResize_false (w h : Q) :
  shouldResize w h maxWidth maxHeight = false
  <-> w <= maxWidth /\ h <= maxHeight.
Proof.
  unfold shouldResize. rewrite orb_false_iff, !gt_false. reflexivity.
Qed.

Lemma isSmall_oversized (w h : Q) :
  shouldResize w h maxWidth maxHeight = true ->
  isSmall w h maxWidth maxHeight = false.
Proof. unfold isSmall. intros ->. reflexivity. Qed.

(** Shape of the [try] block: the canvas is sized first. *)
Lemma encode_canvas_first (resize : bool) (width height : Q) :
  exists rest,
    (encode B imageSrc resize quality width height).2
    = EvCanvas width height :: rest.
Proof.
  unfold encode, Try.bind, Try.emit, Try.ret, Try.throw.
  destruct (getContext2d B width height);
    [destruct (drawImage B imageSrc width height);
     [destruct (toDataURL B imageSrc width height _ _)|]|];
    simpl; eauto.
Qed.

Lemma catch_events {A} (m : Try.t A) (h : A * list event) :
  exists tail, (Try.catch m h).2 = m.2 ++ tail.
Proof.
  destruct m as [[a|] evs]; simpl.
  - exists []. symmetry. apply app_nil_r.
  - eauto.
Qed.

(** Unless the image is small, the handler sizes a canvas as computed by
    [scaledSize]. *)
Lemma onload_canvas (w h : N) :
  isSmall (JsNum.of_N w) (JsNum.of_N h) maxWidth maxHeight = false ->
  exists rest,
    (onload B imageSrc maxWidth maxHeight quality w h).2
    = EvCanvas
        (scaledSize (JsNum.of_N w) (JsNum.of_N h) maxWidth maxHeight).1
        (scaledSize (JsNum.of_N w) (JsNum.of_N h) maxWidth maxHeight).2
      :: rest.
Proof.
  intros Hs. unfold onload. rewrite Hs.
  destruct (scaledSize _ _ _ _) as [cw ch]; simpl.
  destruct (encode_canvas_first
              (shouldResize (JsNum.of_N w) (JsNum.of_N h) maxWidth maxHeight)
              cw ch) as [rest Hrest].
  destruct (catch_events (encode B imageSrc
              (shouldResize (JsNum.of_N w) (JsNum.of_N h) maxWidth maxHeight)
              quality cw ch) (imageSrc, [EvWarn])) as [tail Htail].
  rewrite Htail, Hrest. simpl. eauto.
Qed.

(** Every encoding the handler performs uses the format and the quality
    of lines 78-85. *)
Lemma onload_encode_event (w h : N) (fmt : format) (ql : option Q) :
  EvEncode fmt ql ∈ (onload B imageSrc maxWidth maxHeight quality w h).2 ->
  fmt = outputFormat imageSrc
          (shouldResize (JsNum.of_N w) (JsNum.of_N h) maxWidth maxHeight)
  /\ ql = outputQuality imageSrc
            (shouldResize (JsNum.of_N w) (JsNum.of_N h) maxWidth maxHeight)
            quality.
Proof.
  unfold onload.
  destruct (isSmall _ _ _ _); simpl; [intros H; inversion H|].
  destruct (scaledSize _ _ _ _) as [cw ch].
  unfold encode, Try.bind, Try.emit, Try.ret, Try.throw, Try.catch.
  destruct (getContext2d B cw ch);
    [destruct (drawImage B imageSrc cw ch);
     [destruct (toDataURL B imageSrc cw ch _ _)|]|];
    simpl; intros H;
    repeat (apply elem_of_cons in H as [H|H]; [try discriminate H|]);
    try (inversion H; fail);
    inversion H; subst; split; reflexivity.
Qed.


(** Whatever the canvas does, the handler resolves with the encoded image
    or with the original source. *)
Lemma onload_value (w h : N) :
  (onload B imageSrc maxWidth maxHeight quality w h).1 = imageSrc
  \/ exists cw ch fmt ql,
       toDataURL B imageSrc cw ch fmt ql
       = Some (onload B imageSrc maxWidth maxHeight quality w h).1.
Proof.
  unfold onload.
  destruct (isSmall _ _ _ _); [left; reflexivity|].
  destruct (scaledSize _ _ _ _) as [cw ch].
  unfold encode, Try.bind, Try.emit, Try.ret, Try.throw, Try.catch.
  destruct (getContext2d B cw ch);
    [destruct (drawImage B imageSrc cw ch);
     [destruct (toDataURL B imageSrc cw ch _ _) eqn:E|]|];
    simpl; eauto 6.
Qed.

End OnloadFacts.

(** ** The size of the canvas *)

Section CanvasSize.

Variable B : Browser.
Variables (imageSrc : string) (maxWidth maxHeight quality : Q).

Local Open Scope Q_scope.

Lemma scaledSize_scaling (w h : Q) :
  shouldResize w h maxWidth maxHeight = true ->
  scaling maxWidth maxHeight w h (scaledSize w h maxWidth maxHeight).
Proof.
  intros Hr. unfold scaledSize. rewrite Hr.
  destruct (JsNum.gt w h) eqn:Hwh.
  - destruct (JsNum.gt w maxWidth) eqn:Hw.
    + apply ClampWidth; assumption.
    + apply Unscaled. rewrite Hwh. exact Hw.
  - destruct (JsNum.gt h maxHeight) eqn:Hh.
    + apply ClampHeight; assumption.
    + apply Unscaled. rewrite Hwh. exact Hh.
Qed.

(** The dimension the code treats as the larger one ends within its
    bound, and the other one does not exceed it. *)
Lemma scaling_bound (w h : Q) (size : Q * Q) :
  0 <= maxWidth -> 0 <= maxHeight -> 0 <= w -> 0 <= h ->
  scaling maxWidth maxHeight w h size ->
  if JsNum.gt w h
  then size.1 <= maxWidth /\ size.2 <= size.1
  else size.2 <= maxHeight /\ size.1 <= size.2.
Proof.
  intros HmW HmH Hw Hh Hs.
  destruct Hs as [Hwh HwM | Hwh HhM | Hno]; simpl.
  - rewrite Hwh. rewrite gt_true in Hwh. split; [apply Qle_refl|].
    apply scale_le; [assumption | apply Qlt_le_weak; assumption |].
    apply Qle_lt_trans with h; assumption.
  - rewrite Hwh. rewrite gt_false in Hwh. rewrite gt_true in HhM.
    split; [apply Qle_refl|].
    apply scale_le; [assumption | assumption |].
    apply Qle_lt_trans with maxHeight; assumption.
  - destruct (JsNum.gt w h) eqn:Hwh.
    + rewrite gt_true in Hwh. rewrite gt_false in Hno.
      split; [assumption | apply Qlt_le_weak; assumption].
    + rewrite gt_false in Hwh. rewrite gt_false in Hno.
      split; assumption.
Qed.



Lemma Qeq_bool_same (x : Q) : Qeq_bool x x = true.
Proof. apply Qeq_bool_iff. reflexivity. Qed.

Lemma resizes_shouldResize (w h : Q) :
  resizes w h maxWidth maxHeight = true ->
  shouldResize w h maxWidth maxHeight = true.
Proof.
  unfold resizes, scaledSize.
  destruct (shouldResize w h maxWidth maxHeight); [reflexivity|].
  rewrite !Qeq_bool_same. discriminate.
Qed.




End CanvasSize.




(** ** [compressImage] *)

Section CompressImageFacts.

Variable B : Browser.
Variables (imageSrc : string) (maxWidth maxHeight quality : Q).

Local Open Scope Q_scope.

Let anonymous := crossOriginAnonymous B imageSrc.

(** The call made when the first load succeeds. *)
Lemma compressImage_loaded (rounds : nat) (w h : N) :
  load B 0 imageSrc anonymous = Loaded w h ->
  compressImage B (S rounds) imageSrc maxWidth maxHeight quality
  = (Resolved (onload B imageSrc maxWidth maxHeight quality w h).1,
     EvLoad imageSrc anonymous
       :: (onload B imageSrc maxWidth maxHeight quality w h).2).
Proof.
  intros Hl. unfold compressImage. simpl. fold anonymous. rewrite Hl.
  destruct (onload B imageSrc maxWidth maxHeight quality w h).
  reflexivity.
Qed.

(** The promise is never rejected. *)
Lemma compressImage_rec_never_rejects (rounds attempt : nat) :
  (compressImage_rec B rounds attempt imageSrc maxWidth maxHeight quality).1
  <> Rejected.
Proof.
  revert attempt. induction rounds as [|rounds IH]; intros attempt; simpl.
  - discriminate.
  - fold anonymous.
    destruct (load B attempt imageSrc anonymous) as [|w h].
    + destruct anonymous.
      * destruct (load B attempt imageSrc false) as [|w' h'].
        -- discriminate.
        -- specialize (IH (S attempt)).
           destruct (compressImage_rec B rounds (S attempt) imageSrc
                       maxWidth maxHeight quality) as [[| v |] evs];
             simpl in *; congruence.
      * discriminate.
    + destruct (onload B imageSrc maxWidth maxHeight quality w h).
      discriminate.
Qed.

Lemma compressImage_never_rejects (rounds : nat) :
  (compressImage B rounds imageSrc maxWidth maxHeight quality).1 <> Rejected.
Proof. apply compressImage_rec_never_rejects. Qed.

(** One round of [compressImage_rec]. *)
Lemma compressImage_rec_S (rounds attempt : nat) :
  compressImage_rec B (S rounds) attempt imageSrc maxWidth maxHeight quality
  = match load B attempt imageSrc anonymous with
    | Loaded w h =>
        (Resolved (onload B imageSrc maxWidth maxHeight quality w h).1,
         EvLoad imageSrc anonymous
           :: (onload B imageSrc maxWidth maxHeight quality w h).2)
    | LoadError =>
        if anonymous then
          match load B attempt imageSrc false with
          | Loaded _ _ =>
              let r := compressImage_rec B rounds (S attempt) imageSrc
                         maxWidth maxHeight quality in
              (match r.1 with
               | Resolved v => Resolved v
               | Rejected => Resolved imageSrc
               | Pending => Pending
               end,
               EvLoad imageSrc true :: EvLoad imageSrc false :: r.2)
          | LoadError =>
              (Resolved imageSrc,
               [EvLoad imageSrc true; EvLoad imageSrc false; EvWarn])
          end
        else (Resolved imageSrc, [EvLoad imageSrc false; EvWarn])
    end.
Proof.
  simpl. fold anonymous.
  destruct (load B attempt imageSrc anonymous) as [|w h].
  - destruct anonymous; [|reflexivity].
    destruct (load B attempt imageSrc false); [reflexivity|].
    destruct (compressImage_rec B rounds (S attempt) imageSrc
                maxWidth maxHeight quality); reflexivity.
  - destruct (onload B imageSrc maxWidth maxHeight quality w h).
    reflexivity.
Qed.

(** A promise that settled within some rounds is settled, in the same
    way, within any larger number of rounds. *)
Lemma compressImage_rec_settled (rounds attempt : nat) :
  (compressImage_rec B rounds attempt imageSrc maxWidth maxHeight quality).1
  <> Pending ->
  compressImage_rec B (S rounds) attempt imageSrc maxWidth maxHeight quality
  = compressImage_rec B rounds attempt imageSrc maxWidth maxHeight quality.
Proof.
  revert attempt. induction rounds as [|rounds IH]; intros attempt Hs.
  - exfalso. apply Hs. reflexivity.
  - rewrite (compressImage_rec_S (S rounds) attempt).
    rewrite (compressImage_rec_S rounds attempt).
    rewrite (compressImage_rec_S rounds attempt) in Hs.
    destruct (load B attempt imageSrc anonymous) as [|w h]; [|reflexivity].
    destruct anonymous; [|reflexivity].
    destruct (load B attempt imageSrc false) as [|w' h']; [reflexivity|].
    rewrite IH; [reflexivity|].
    intros Hp. apply Hs. simpl. rewrite Hp. reflexivity.
Qed.

(** What a trace is made of: loads, warnings, and the events of the
    [onload] handler of a load that succeeded in the mode the call
    selects. *)
Lemma compressImage_rec_events (rounds attempt : nat) (e : event) :
  e ∈ (compressImage_rec B rounds attempt imageSrc
         maxWidth maxHeight quality).2 ->
  (exists mode, e = EvLoad imageSrc mode)
  \/ e = EvWarn
  \/ exists k w h,
       load B k imageSrc anonymous = Loaded w h
       /\ e ∈ (onload B imageSrc maxWidth maxHeight quality w h).2.
Proof.
  revert attempt. induction rounds as [|rounds IH]; intros attempt; simpl.
  - intros H. inversion H.
  - fold anonymous.
    destruct (load B attempt imageSrc anonymous) as [|w h] eqn:Hl.
    + destruct anonymous eqn:Ha.
      * destruct (load B attempt imageSrc false) as [|w' h'].
        -- simpl. intros H.
           repeat (apply elem_of_cons in H as [H|H]; [subst; eauto|]).
           inversion H.
        -- specialize (IH (S attempt)).
           destruct (compressImage_rec B rounds (S attempt) imageSrc
                       maxWidth maxHeight quality) as [p evs].
           simpl in *. intros H.
           repeat (apply elem_of_cons in H as [H|H]; [subst; eauto|]).
           apply IH. exact H.
      * simpl. intros H.
        repeat (apply elem_of_cons in H as [H|H]; [subst; eauto|]).
        inversion H.
    + destruct (onload B imageSrc maxWidth maxHeight quality w h)
        as [v evs] eqn:Ho.
      simpl. intros H. apply elem_of_cons in H as [H|H]; [subst; eauto|].
      right. right. exists attempt, w, h. rewrite Ho. auto.
Qed.

(** The retry loop: as long as the anonymous load fails and the plain
    load succeeds, each call makes another call, and the promise is not
    settled. *)
Lemma compressImage_rec_retry_loop (rounds attempt : nat) :
  anonymous = true ->
  (forall k, load B k imageSrc true = LoadError) ->
  (forall k, load B k imageSrc false <> LoadError) ->
  (compressImage_rec B rounds attempt imageSrc maxWidth maxHeight quality).1
  = Pending.
Proof.
  intros Ha Hfail Hok. revert attempt.
  induction rounds as [|rounds IH]; intros attempt; simpl; [reflexivity|].
  fold anonymous. rewrite Ha, Hfail.
  destruct (load B attempt imageSrc false) as [|w h] eqn:Hl.
  - exfalso. apply (Hok attempt). exact Hl.
  - specialize (IH (S attempt)).
    destruct (compressImage_rec B rounds (S attempt) imageSrc
                maxWidth maxHeight quality) as [p evs].
    simpl in *. rewrite IH. reflexivity.
Qed.

(** A call that ran starts with the load of its executor. *)
Lemma compressImage_first_load (rounds : nat) :
  (compressImage B (S rounds) imageSrc maxWidth maxHeight quality).2
  = executorLoad B imageSrc
      :: (compressImage_handlers B (S rounds) imageSrc
            maxWidth maxHeight quality).2.
Proof.
  unfold compressImage_handlers, compressImage, executorLoad.
  rewrite compressImage_rec_S. fold anonymous.
  destruct (load B 0 imageSrc anonymous) as [|w h]; [|reflexivity].
  destruct anonymous eqn:Ha; [|reflexivity].
  destruct (load B 0 imageSrc false); reflexivity.
Qed.

(** A settled promise is that of a call that ran. *)
Lemma compressImage_settled_first_load (rounds : nat) :
  (compressImage B rounds imageSrc maxWidth maxHeight quality).1 <> Pending ->
  (compressImage B rounds imageSrc maxWidth maxHeight quality).2
  = executorLoad B imageSrc
      :: (compressImage_handlers B rounds imageSrc
            maxWidth maxHeight quality).2.
Proof.
  destruct rounds as [|rounds].
  - intros H. exfalso. apply H. reflexivity.
  - intros _. apply compressImage_first_load.
Qed.

(** A failed load without the cross-origin mode resolves with the
    original source. *)
Lemma compressImage_load_error (rounds : nat) :
  anonymous = false ->
  load B 0 imageSrc false = LoadError ->
  compressImage B (S rounds) imageSrc maxWidth maxHeight quality
  = (Resolved imageSrc, [EvLoad imageSrc false; EvWarn]).
Proof.
  intros Ha Hl. unfold compressImage. simpl. fold anonymous.
  rewrite Ha, Hl. reflexivity.
Qed.

(** A canvas that fails at any step makes the handler resolve with the
    original source. *)
Lemma onload_canvas_failure (w h : N) :
  let size := scaledSize (JsNum.of_N w) (JsNum.of_N h) maxWidth maxHeight in
  let resize := shouldResize (JsNum.of_N w) (JsNum.of_N h)
                             maxWidth maxHeight in
  getContext2d B size.1 size.2 = false
  \/ drawImage B imageSrc size.1 size.2 = false
  \/ toDataURL B imageSrc size.1 size.2 (outputFormat imageSrc resize)
               (outputQuality imageSrc resize quality) = None ->
  (onload B imageSrc maxWidth maxHeight quality w h).1 = imageSrc.
Proof.
  intros size resize Hfail. unfold onload. fold resize size.
  destruct (isSmall _ _ _ _); [reflexivity|].
  destruct size as [cw ch]. simpl in Hfail.
  unfold encode, Try.bind, Try.emit, Try.ret, Try.throw, Try.catch.
  destruct (getContext2d B cw ch);
    [destruct (drawImage B imageSrc cw ch);
     [destruct (toDataURL B imageSrc cw ch _ _)|]|];
    simpl; try reflexivity.
  destruct Hfail as [H|[H|H]]; discriminate H.
Qed.

End CompressImageFacts.

(** C5.  When the image loads with an area below 500,000 pixels and with
    width and height within [maxWidth] and [maxHeight], the handler
    resolves the promise with the source string it was given, and the
    load is the only thing [compressImage] asks of the browser: no canvas
    is made and nothing is encoded. *)
Theorem small_image_resolves_with_source (B : Browser) (imageSrc : string)
    (maxWidth maxHeight quality : Q) (w h : N) (rounds : nat) :
  load B 0 imageSrc (crossOriginAnonymous B imageSrc) = Loaded w h ->
  (JsNum.of_N w <= maxWidth)%Q ->
  (JsNum.of_N h <= maxHeight)%Q ->
  (w * h < 500000)%N ->
  onload B imageSrc maxWidth maxHeight quality w h = (imageSrc, [])
  /\ compressImage B (S rounds) imageSrc maxWidth maxHeight quality
     = (Resolved imageSrc, [EvLoad imageSrc (crossOriginAnonymous B imageSrc)]).
Proof.
  intros Hl Hw Hh Ha.
  assert (Ho : onload B imageSrc maxWidth maxHeight quality w h
               = (imageSrc, [])).
  { unfold onload, isSmall.
    rewrite (proj2 (shouldResize_false maxWidth maxHeight _ _) (conj Hw Hh)).
    rewrite (proj2 (area_small w h) Ha). reflexivity. }
  split; [exact Ho|].
  rewrite (compressImage_loaded B imageSrc maxWidth maxHeight quality
             rounds w h Hl), Ho.
  reflexivity.
Qed.

Lemma small_image_resolves_with_source_witness :
  onload Demo.thumbnails "/img/icon.png" 1920 1920 0.8 400 300
  = ("/img/icon.png", [])
  /\ compressImage Demo.thumbnails 1 "/img/icon.png" 1920 1920 0.8
     = (Resolved "/img/icon.png", [EvLoad "/img/icon.png" false]).
Proof.
  apply (small_image_resolves_with_source
           Demo.thumbnails "/img/icon.png" 1920 1920 0.8 400 300 0).
  - reflexivity.
  - discriminate.
  - discriminate.
  - lia.
Defined.

(** C2, as stated, fails: a source that has [".png"] in the middle and
    does not end in it is encoded as PNG when it is not resized. *)
Lemma png_inside_the_name_encodes_png :
  JsString.endsWith "/img/scan.png.jpg" ".png" = false
  /\ resizes (JsNum.of_N 1000) (JsNum.of_N 900) 1920 1920 = false
  /\ compressImage Demo.friendly 1 "/img/scan.png.jpg" 1920 1920 0.8
     = (Resolved (Demo.dataUrl Png),
        [EvLoad "/img/scan.png.jpg" false;
         EvCanvas (JsNum.of_N 1000) (JsNum.of_N 900);
         EvDraw (JsNum.of_N 1000) (JsNum.of_N 900);
         EvEncode Png None]).
Proof. repeat split; reflexivity. Qed.

(** C2, amended.  Every encoding [compressImage] performs is of an image
    that loaded, and it is PNG exactly when the lower-cased source
    contains [".png"] and the image is within both bounds (so that no
    resizing is asked for); it is JPEG at the given quality in every
    other case, and PNG is encoded without a quality. *)
Theorem png_iff_named_png_and_within_bounds (B : Browser) (imageSrc : string)
    (maxWidth maxHeight quality : Q) (rounds : nat)
    (fmt : format) (ql : option Q) :
  EvEncode fmt ql
    ∈ (compressImage B rounds imageSrc maxWidth maxHeight quality).2 ->
  exists k w h,
    load B k imageSrc (crossOriginAnonymous B imageSrc) = Loaded w h
    /\ (fmt = Png <->
        JsString.includes (JsString.toLowerCase imageSrc) ".png" = true
        /\ (JsNum.of_N w <= maxWidth)%Q /\ (JsNum.of_N h <= maxHeight)%Q)
    /\ (fmt = Jpeg <->
        JsString.includes (JsString.toLowerCase imageSrc) ".png" = false
        \/ resizes (JsNum.of_N w) (JsNum.of_N h) maxWidth maxHeight = true
        \/ shouldResize (JsNum.of_N w) (JsNum.of_N h) maxWidth maxHeight = true)
    /\ ql = match fmt with Png => None | Jpeg => Some quality end.
Proof.
  intros Hin.
  apply compressImage_rec_events in Hin
    as [[mode Hin] | [Hin | (k & w & h & Hl & Hin)]]; try discriminate Hin.
  apply onload_encode_event in Hin as [Hf Hq].
  exists k, w, h. split; [exact Hl|].
  unfold outputQuality in Hq. rewrite <- Hf in Hq.
  unfold outputFormat in Hf.
  pose proof (shouldResize_false maxWidth maxHeight
                (JsNum.of_N w) (JsNum.of_N h)) as Hsr.
  pose proof (resizes_shouldResize maxWidth maxHeight
                (JsNum.of_N w) (JsNum.of_N h)) as Hrs.
  destruct (JsString.includes (JsString.toLowerCase imageSrc) ".png");
    destruct (shouldResize (JsNum.of_N w) (JsNum.of_N h) maxWidth maxHeight);
    simpl in Hf; subst fmt; (split; [|split; [|exact Hq]]).
  all: try (split; [discriminate | intros (_ & Hb); apply Hsr in Hb;
                                    discriminate Hb]).
  all: try (split; [intros _; split; [reflexivity | apply Hsr; reflexivity]
                   | reflexivity]).
  all: try (split; [discriminate | intros (Hc & _); discriminate Hc]).
  all: try (split; [intros _; auto | reflexivity]).
  split; [discriminate|].
  intros [Hc | [Hc | Hc]]; try discriminate Hc.
  apply Hrs in Hc. discriminate Hc.
Qed.

Lemma png_iff_named_png_and_within_bounds_witness :
  exists k w h,
    load Demo.friendly k "/img/chart.png"
         (crossOriginAnonymous Demo.friendly "/img/chart.png") = Loaded w h
    /\ (Png = Png <->
        JsString.includes (JsString.toLowerCase "/img/chart.png") ".png" = true
        /\ (JsNum.of_N w <= 1920)%Q /\ (JsNum.of_N h <= 1920)%Q)
    /\ (Png = Jpeg <->
        JsString.includes (JsString.toLowerCase "/img/chart.png") ".png" = false
        \/ resizes (JsNum.of_N w) (JsNum.of_N h) 1920 1920 = true
        \/ shouldResize (JsNum.of_N w) (JsNum.of_N h) 1920 1920 = true)
    /\ None = @None Q.
Proof.
  apply (png_iff_named_png_and_within_bounds
           Demo.friendly "/img/chart.png" 1920 1920 0.8 1 Png None).
  vm_compute. do 3 right. left.
Defined.

(** C3, at an input where the code departs from it.  The page is served
    from https://example.org and the image from a server that sends no
    CORS headers, so that the load in anonymous cross-origin mode fails and
    the plain load succeeds.  The call made when the retry image loads
    (line 101) selects the cross-origin mode again, and so does every call
    after it: however many rounds are run, the promise is neither resolved
    with the original source nor settled at all. *)
Theorem cross_origin_failure_never_settles :
  crossOriginAnonymous Demo.noCors "https://cdn.example.com/photo.jpg" = true
  /\ (forall k, load Demo.noCors k "https://cdn.example.com/photo.jpg" true
                = LoadError)
  /\ (forall k, load Demo.noCors k "https://cdn.example.com/photo.jpg" false
                = Loaded 1000 900)
  /\ (forall rounds,
        (compressImage Demo.noCors rounds "https://cdn.example.com/photo.jpg"
                       1920 1920 0.8).1 = Pending)
  /\ compressImage Demo.noCors 2 "https://cdn.example.com/photo.jpg"
                   1920 1920 0.8
     = (Pending,
        [EvLoad "https://cdn.example.com/photo.jpg" true;
         EvLoad "https://cdn.example.com/photo.jpg" false;
         EvLoad "https://cdn.example.com/photo.jpg" true;
         EvLoad "https://cdn.example.com/photo.jpg" false]).
Proof.
  split; [reflexivity|]. split; [reflexivity|]. split; [reflexivity|].
  split; [|reflexivity].
  intros rounds. apply compressImage_rec_retry_loop.
  - reflexivity.
  - reflexivity.
  - discriminate.
Qed.

(** C4, as stated, fails.  The test for the page's own origin is a
    comparison of prefixes, case and all: a source on the page's origin
    written with an upper-case scheme gets the cross-origin mode.  And a
    failed load in that mode is not followed by one retry and the end: on
    a server that sends no CORS headers and goes down after the first
    plain load, two plain loads are made before the promise is resolved
    with the original source. *)
Lemma cross_origin_mode_retries_more_than_once :
  JsString.startsWith
    (JsString.toLowerCase "HTTPS://example.org/photo.jpg")
    (origin Demo.flaky) = true
  /\ crossOriginAnonymous Demo.flaky "HTTPS://example.org/photo.jpg" = true
  /\ compressImage Demo.flaky 2 "https://cdn.example.com/photo.jpg"
                   1920 1920 0.8
     = (Resolved "https://cdn.example.com/photo.jpg",
        [EvLoad "https://cdn.example.com/photo.jpg" true;
         EvLoad "https://cdn.example.com/photo.jpg" false;
         EvLoad "https://cdn.example.com/photo.jpg" true;
         EvLoad "https://cdn.example.com/photo.jpg" false;
         EvWarn]).
Proof. repeat split; reflexivity. Qed.

(** C4, amended.  The anonymous cross-origin mode is set exactly when the
    source starts with none of ["data:"], ["/"] and ["./"], contains
    ["://"], and does not start with the string made of the page's
    protocol, ["//"] and host.  When the load fails with the mode set, one
    more load of the same source is made, without the mode; when that one
    fails too the call gives up: the promise is resolved with the original
    source and nothing more is loaded.  When the load fails without the
    mode, there is no retry.  (Nothing is said of a retry load that
    succeeds.) *)
Theorem cross_origin_mode_and_retry (B : Browser) (imageSrc : string)
    (maxWidth maxHeight quality : Q) (rounds : nat) :
  (crossOriginAnonymous B imageSrc = true <->
   JsString.startsWith imageSrc "data:" = false
   /\ JsString.startsWith imageSrc "/" = false
   /\ JsString.startsWith imageSrc "./" = false
   /\ JsString.includes imageSrc "://" = true
   /\ JsString.startsWith imageSrc (origin B) = false)
  /\ (load B 0 imageSrc (crossOriginAnonymous B imageSrc) = LoadError ->
      (crossOriginAnonymous B imageSrc = true ->
       exists p rest,
         compressImage B (S rounds) imageSrc maxWidth maxHeight quality
         = (p, EvLoad imageSrc true :: EvLoad imageSrc false :: rest)
         /\ (load B 0 imageSrc false = LoadError ->
             p = Resolved imageSrc /\ rest = [EvWarn]))
      /\ (crossOriginAnonymous B imageSrc = false ->
          compressImage B (S rounds) imageSrc maxWidth maxHeight quality
          = (Resolved imageSrc, [EvLoad imageSrc false; EvWarn]))).
Proof.
  split; [|intros Hl; split].
  - unfold crossOriginAnonymous. rewrite !andb_true_iff, !negb_true_iff.
    split.
    + intros [[[[H1 H2] H3] H4] H5]. auto.
    + intros (H1 & H2 & H3 & H4 & H5). auto.
  - intros Ha. unfold compressImage.
    rewrite compressImage_rec_S, Ha. rewrite Ha in Hl. rewrite Hl.
    destruct (load B 0 imageSrc false) as [|w h].
    + exists (Resolved imageSrc), [EvWarn]. split; [reflexivity|]. auto.
    + eexists _, _. split; [reflexivity|]. discriminate.
  - intros Ha. rewrite Ha in Hl.
    apply compressImage_load_error; assumption.
Qed.

Lemma cross_origin_mode_and_retry_witness :
  crossOriginAnonymous Demo.offline "https://cdn.example.com/photo.jpg" = true
  /\ JsString.includes "https://cdn.example.com/photo.jpg" "://" = true
  /\ JsString.startsWith "https://cdn.example.com/photo.jpg"
                         (origin Demo.offline) = false
  /\ compressImage Demo.offline 1 "https://cdn.example.com/photo.jpg"
                   1920 1920 0.8
     = (Resolved "https://cdn.example.com/photo.jpg",
        [EvLoad "https://cdn.example.com/photo.jpg" true;
         EvLoad "https://cdn.example.com/photo.jpg" false;
         EvWarn]).
Proof.
  destruct (cross_origin_mode_and_retry
              Demo.offline "https://cdn.example.com/photo.jpg"
              1920 1920 0.8 0) as (Hmode & Hfailed).
  destruct (Hfailed eq_refl) as (Hretry & _).
  destruct (proj1 Hmode eq_refl) as (_ & _ & _ & Habs & Hforeign).
  destruct (Hretry eq_refl) as (p & rest & Hcall & Hgive).
  destruct (Hgive eq_refl) as [Hp Hrest].
  rewrite Hcall, Hp, Hrest.
  split; [reflexivity|]. split; [exact Habs|]. split; [exact Hforeign|].
  reflexivity.
Defined.

(** ** [applyImageCompression] *)

Section ApplyFacts.

Variable B : Browser.

Lemma begin_skip_compressed (el : Element) (options : Options) :
  dataset el !! "compressed" = Some "true" ->
  applyImageCompression_begin B el options = (el, None, []).
Proof.
  intros H. unfold applyImageCompression_begin.
  destruct (decide _) as [_|Hn]; [reflexivity | contradiction].
Qed.

Lemma begin_skip_embedded (el : Element) (options : Options) :
  JsString.startsWith (src el) "data:image" = true ->
  applyImageCompression_begin B el options = (el, None, []).
Proof.
  intros H. unfold applyImageCompression_begin. rewrite H.
  destruct (decide _); reflexivity.
Qed.

(** A call that passes both guards reaches the [await], the executor of
    [compressImage] having issued its load. *)
Lemma begin_past_guards (el : Element) (options : Options) :
  dataset el !! "compressed" <> Some "true" ->
  JsString.startsWith (src el) "data:image" = false ->
  applyImageCompression_begin B el options
  = (if default true (opt_showLoading options)
     then set_style "opacity" "0.5" el else el,
     Some {| originalSrc := src el;
             maxWidth := default 1920%Q (opt_maxWidth options);
             maxHeight := default 1920%Q (opt_maxHeight options);
             quality := default 0.8%Q (opt_quality options);
             showLoading := default true (opt_showLoading options) |},
     [executorLoad B (src el)]).
Proof.
  intros Hc Hd. unfold applyImageCompression_begin. rewrite Hd.
  destruct (decide _) as [Hy|_]; [contradiction|]. reflexivity.
Qed.

Lemma apply_skip_compressed (rounds : nat) (el : Element) (options : Options) :
  dataset el !! "compressed" = Some "true" ->
  applyImageCompression B rounds el options = (Returned el, []).
Proof.
  intros H. unfold applyImageCompression.
  rewrite begin_skip_compressed by exact H. reflexivity.
Qed.

Lemma apply_skip_embedded (rounds : nat) (el : Element) (options : Options) :
  JsString.startsWith (src el) "data:image" = true ->
  applyImageCompression B rounds el options = (Returned el, []).
Proof.
  intros H. unfold applyImageCompression.
  rewrite begin_skip_embedded by exact H. reflexivity.
Qed.

(** A call that passes both guards, unfolded. *)
Lemma apply_past_guards (rounds : nat) (el : Element) (options : Options) :
  dataset el !! "compressed" <> Some "true" ->
  JsString.startsWith (src el) "data:image" = false ->
  applyImageCompression B rounds el options
  = let r := applyImageCompression_resume B rounds
               {| originalSrc := src el;
                  maxWidth := default 1920%Q (opt_maxWidth options);
                  maxHeight := default 1920%Q (opt_maxHeight options);
                  quality := default 0.8%Q (opt_quality options);
                  showLoading := default true (opt_showLoading options) |}
               (if default true (opt_showLoading options)
                then set_style "opacity" "0.5" el else el) in
    (r.1, executorLoad B (src el) :: r.2).
Proof.
  intros Hc Hd. unfold applyImageCompression.
  rewrite (begin_past_guards el options Hc Hd).
  destruct (applyImageCompression_resume B rounds _ _). reflexivity.
Qed.

(** A continuation that returns has seen the promise resolved, and has
    marked the element. *)
Lemma resume_returned (rounds : nat) (a : Awaiting) (e el' : Element)
    (evs : list event) :
  applyImageCompression_resume B rounds a e = (Returned el', evs) ->
  exists v,
    compressImage B rounds (originalSrc a) (maxWidth a) (maxHeight a)
                  (quality a)
    = (Resolved v, executorLoad B (originalSrc a) :: evs)
    /\ src el' = v
    /\ dataset el' !! "compressed" = Some "true"
    /\ dataset el' !! "originalSrc" = Some (originalSrc a).
Proof.
  unfold applyImageCompression_resume, compressImage_handlers.
  pose proof (compressImage_never_rejects B (originalSrc a) (maxWidth a)
                (maxHeight a) (quality a) rounds) as Hnr.
  pose proof (compressImage_settled_first_load B (originalSrc a) (maxWidth a)
                (maxHeight a) (quality a) rounds) as Hhead.
  unfold compressImage_handlers in Hhead.
  destruct (compressImage B rounds (originalSrc a) (maxWidth a)
              (maxHeight a) (quality a)) as [[| v |] evs0];
    simpl in Hnr, Hhead |- *.
  - discriminate.
  - intros H. injection H as <- <-. exists v.
    split; [rewrite <- Hhead by discriminate; reflexivity|].
    destruct (showLoading a); simpl;
      (split; [reflexivity|]; split;
       [rewrite lookup_insert_ne by discriminate; apply lookup_insert_eq
       | apply lookup_insert_eq]).
  - contradiction.
Qed.

(** A call that returned leaves an element that the next call skips. *)
Lemma apply_returned_skips (rounds : nat) (el el' : Element)
    (options : Options) (evs : list event) :
  applyImageCompression B rounds el options = (Returned el', evs) ->
  forall rounds' options',
    applyImageCompression B rounds' el' options' = (Returned el', []).
Proof.
  destruct (decide (dataset el !! "compressed" = Some "true")) as [Hc|Hc].
  - rewrite (apply_skip_compressed rounds el options Hc).
    intros H. injection H as <- <-. intros. apply apply_skip_compressed, Hc.
  - destruct (JsString.startsWith (src el) "data:image") eqn:Hd.
    + rewrite (apply_skip_embedded rounds el options Hd).
      intros H. injection H as <- <-. intros.
      apply apply_skip_embedded, Hd.
    + rewrite (apply_past_guards rounds el options Hc Hd). cbv zeta.
      destruct (applyImageCompression_resume B rounds _ _) as [r evs0] eqn:Hr.
      simpl. intros H. injection H as -> <-.
      apply resume_returned in Hr as (v & _ & _ & Hm & _).
      intros. apply apply_skip_compressed, Hm.
Qed.

(** C6, amended.  A call on an element that is marked compressed, or
    whose source starts with ["data:image"], or that an earlier call has
    returned from, returns at once: the element is unchanged and the
    browser is asked for nothing, so that successive calls compress an
    element at most once. *)
Theorem applyImageCompression_idempotent (rounds : nat) (el : Element)
    (options : Options) :
  dataset el !! "compressed" = Some "true"
  \/ JsString.startsWith (src el) "data:image" = true
  \/ (exists rounds0 el0 options0 evs0,
        applyImageCompression B rounds0 el0 options0 = (Returned el, evs0)) ->
  applyImageCompression B rounds el options = (Returned el, []).
Proof.
  intros [H | [H | (rounds0 & el0 & options0 & evs0 & H)]].
  - apply apply_skip_compressed, H.
  - apply apply_skip_embedded, H.
  - eapply apply_returned_skips, H.
Qed.

(** C9.  A call that passes both guards and returns has marked the
    element compressed and stored its original source, whatever value
    the promise of [compressImage] was resolved with, the original
    source included; every later call on the element returns at once
    and asks the browser for nothing. *)
Theorem completed_run_marks_element (rounds : nat) (el el' : Element)
    (options : Options) (evs : list event) :
  dataset el !! "compressed" <> Some "true" ->
  JsString.startsWith (src el) "data:image" = false ->
  applyImageCompression B rounds el options = (Returned el', evs) ->
  dataset el' !! "compressed" = Some "true"
  /\ dataset el' !! "originalSrc" = Some (src el)
  /\ compressImage B rounds (src el)
       (default 1920%Q (opt_maxWidth options))
       (default 1920%Q (opt_maxHeight options))
       (default 0.8%Q (opt_quality options))
     = (Resolved (src el'), evs)
  /\ forall rounds' options',
       applyImageCompression B rounds' el' options' = (Returned el', []).
Proof.
  intros Hc Hd Hrun.
  pose proof (apply_returned_skips _ _ _ _ _ Hrun) as Hskip.
  rewrite (apply_past_guards rounds el options Hc Hd) in Hrun.
  cbv zeta in Hrun.
  destruct (applyImageCompression_resume B rounds _ _) as [r evs0] eqn:Hr.
  simpl in Hrun. injection Hrun as -> <-.
  apply resume_returned in Hr as (v & Hv & Hs & Hm & Hos).
  simpl in Hv, Hos. subst v.
  repeat split; assumption.
Qed.

End ApplyFacts.

(** C6, as stated, fails: a source that is a [data:] URL of another media
    type than [image] is not skipped; the image is loaded, drawn and
    encoded, and the element's source replaced. *)
Lemma data_url_not_image_is_compressed :
  let el := Demo.image "data:application/octet-stream;base64,iVBORw0KGgo="
                       true [] in
  JsString.startsWith (src el) "data:" = true
  /\ (applyImageCompression Demo.friendly 1 el noOptions).2
     = [EvLoad (src el) false;
        EvCanvas (JsNum.of_N 1000) (JsNum.of_N 900);
        EvDraw (JsNum.of_N 1000) (JsNum.of_N 900);
        EvEncode Jpeg (Some 0.8%Q)]
  /\ src (element_of (applyImageCompression Demo.friendly 1 el noOptions).1)
     = Demo.dataUrl Jpeg
  /\ (applyImageCompression Demo.friendly 1 el noOptions).1 <> Returned el.
Proof.
  repeat split; try reflexivity.
  vm_compute. discriminate.
Qed.

Lemma applyImageCompression_idempotent_witness :
  let first :=
    applyImageCompression Demo.friendly 1
      (Demo.image "/img/banner.jpg" true []) noOptions in
  applyImageCompression Demo.friendly 1 (element_of first.1) noOptions
  = (Returned (element_of first.1), []).
Proof.
  intros first.
  apply (applyImageCompression_idempotent Demo.friendly).
  right. right.
  exists 1%nat, (Demo.image "/img/banner.jpg" true []), noOptions, first.2.
  reflexivity.
Defined.

Lemma completed_run_marks_element_witness :
  let el := Demo.image "/img/banner.jpg" true [] in
  exists el',
    applyImageCompression Demo.offline 1 el noOptions
    = (Returned el', [EvLoad "/img/banner.jpg" false; EvWarn])
    /\ src el' = "/img/banner.jpg"
    /\ dataset el' !! "compressed" = Some "true"
    /\ dataset el' !! "originalSrc" = Some "/img/banner.jpg"
    /\ applyImageCompression Demo.offline 1 el' noOptions = (Returned el', []).
Proof.
  intros el.
  exists (element_of (applyImageCompression Demo.offline 1 el noOptions).1).
  destruct (completed_run_marks_element Demo.offline 1 el
              (element_of (applyImageCompression Demo.offline 1 el noOptions).1)
              noOptions [EvLoad "/img/banner.jpg" false; EvWarn])
    as (Hm & Ho & _ & Hskip).
  - vm_compute. discriminate.
  - reflexivity.
  - reflexivity.
  - split; [reflexivity|]. split; [reflexivity|].
    split; [exact Hm|]. split; [exact Ho|]. apply Hskip.
Defined.

(** ** [compressAllImages] *)

Section CompressAllFacts.

Variable B : Browser.
Variable matchesSelector : string -> Element -> bool.

Lemma same_frame_refl (e : Element) : same_frame e e.
Proof. repeat split. Qed.

Lemma same_frame_trans (e1 e2 e3 : Element) :
  same_frame e1 e2 -> same_frame e2 e3 -> same_frame e1 e3.
Proof. unfold same_frame. intros (-> & -> & ->) (-> & -> & ->). auto. Qed.

Lemma begin_frame (e : Element) (options : Options) :
  same_frame e (applyImageCompression_begin B e options).1.1.
Proof.
  unfold applyImageCompression_begin.
  destruct (decide _); [apply same_frame_refl|].
  destruct (JsString.startsWith _ _); [apply same_frame_refl|]. simpl.
  destruct (default true (opt_showLoading options)); repeat split.
Qed.

Lemma resume_frame (rounds : nat) (a : Awaiting) (e : Element) :
  same_frame e (element_of (applyImageCompression_resume B rounds a e).1).
Proof.
  unfold applyImageCompression_resume.
  destruct (compressImage_handlers B rounds _ _ _ _) as [[| v |] evs]; simpl;
    [| destruct (showLoading a) |]; repeat split.
Qed.

Lemma apply_frame (rounds : nat) (e : Element) (options : Options) :
  same_frame e (element_of (applyImageCompression B rounds e options).1).
Proof.
  unfold applyImageCompression.
  pose proof (begin_frame e options) as Hb.
  destruct (applyImageCompression_begin B e options) as [[e1 [a|]] evs];
    simpl in *.
  - pose proof (resume_frame rounds a e1) as Hr.
    destruct (applyImageCompression_resume B rounds a e1) as [r evs'].
    simpl in *. eapply same_frame_trans; [exact Hb | exact Hr].
  - exact Hb.
Qed.

(** [forEach] rewrites the visited positions and no other. *)
Lemma forEach_lookup (f : Element -> Element * list event)
    (images : list nat) (doc : list Element) (i : nat) :
  NoDup images ->
  (forEach f images doc).1 !! i
  = if decide (i ∈ images) then (fun e => (f e).1) <$> doc !! i
    else doc !! i.
Proof.
  unfold forEach. generalize (@nil event) as evs. revert doc.
  induction images as [|j images IH]; intros doc evs Hnd;
    cbn [foldl fst snd].
  - rewrite decide_False by apply not_elem_of_nil. reflexivity.
  - apply NoDup_cons in Hnd as [Hj Hnd].
    destruct (doc !! j) as [e|] eqn:Hdj;
      [destruct (f e) as [e' evs'] eqn:Hf|];
      cbn [fst snd]; rewrite IH by exact Hnd;
      destruct (decide (i = j)) as [->|Hij].
    + rewrite decide_False by exact Hj.
      rewrite decide_True by apply list_elem_of_here.
      rewrite list_lookup_insert_eq by (eapply lookup_lt_Some; exact Hdj).
      rewrite Hdj. simpl. rewrite Hf. reflexivity.
    + rewrite list_lookup_insert_ne by congruence.
      destruct (decide (i ∈ images)) as [Hin|Hin].
      * rewrite decide_True by (apply list_elem_of_further; exact Hin).
        reflexivity.
      * rewrite decide_False
          by (intros [?|?]%elem_of_cons; contradiction).
        reflexivity.
    + rewrite decide_False by exact Hj.
      rewrite decide_True by apply list_elem_of_here.
      rewrite Hdj. reflexivity.
    + destruct (decide (i ∈ images)) as [Hin|Hin].
      * rewrite decide_True by (apply list_elem_of_further; exact Hin).
        reflexivity.
      * rewrite decide_False
          by (intros [?|?]%elem_of_cons; contradiction).
        reflexivity.
Qed.

Lemma querySelectorAll_NoDup (sel : string) (doc : list Element) :
  NoDup (querySelectorAll matchesSelector sel doc).
Proof.
  unfold querySelectorAll.
  apply NoDup_ListNoDup, List.NoDup_filter, List.seq_NoDup.
Qed.

Lemma querySelectorAll_elem (sel : string) (doc : list Element) (i : nat)
    (img : Element) :
  doc !! i = Some img ->
  i ∈ querySelectorAll matchesSelector sel doc
  <-> matchesSelector sel img = true.
Proof.
  intros Hi. unfold querySelectorAll.
  rewrite list_elem_of_In, List.filter_In, List.in_seq, Hi.
  split; [intros [_ H]; exact H|].
  intros H. split; [|exact H].
  apply lookup_lt_Some in Hi. lia.
Qed.

Lemma spread_selector (options : Options) :
  default "undefined" (opt_selector (spread defaultOptions options))
  = default "img" (opt_selector options).
Proof. unfold spread. simpl. destruct (opt_selector options); reflexivity. Qed.

(** Started calls never touch listeners, completeness or classes. *)
Lemma runListeners_frame (ls : list Listener) (img : Element) :
  same_frame img (runListeners B ls img).1.1.
Proof.
  unfold runListeners.
  generalize (@nil Awaiting) as acc. generalize (@nil event) as evs0.
  assert (Hgen : forall e acc evs0, same_frame img e ->
            same_frame img
              (foldl (fun st l =>
                        let '(e0, a, evs) :=
                          applyImageCompression_begin B st.1.1
                            (handlerOptions l) in
                        (e0, st.1.2 ++ option_list a, st.2 ++ evs))
                     (e, acc, evs0) ls).1.1).
  { induction ls as [|l ls IH]; intros e acc evs0 He; simpl; [exact He|].
    pose proof (begin_frame e (handlerOptions l)) as Hb.
    destruct (applyImageCompression_begin B e (handlerOptions l))
      as [[e1 a] evs].
    apply IH. eapply same_frame_trans; [exact He | exact Hb]. }
  intros evs0 acc. apply Hgen, same_frame_refl.
Qed.

Lemma resumeAll_frame (rounds : nat) (calls : list Awaiting) (img : Element) :
  same_frame img (resumeAll B rounds calls img).1.
Proof.
  unfold resumeAll. generalize (@nil event) as acc.
  assert (Hgen : forall e acc, same_frame img e ->
            same_frame img
              (foldl (fun st a =>
                        let '(r, evs) :=
                          applyImageCompression_resume B rounds a st.1 in
                        (element_of r, st.2 ++ evs)) (e, acc) calls).1).
  { induction calls as [|a calls IH]; intros e acc He; simpl; [exact He|].
    pose proof (resume_frame rounds a e) as Hr.
    destruct (applyImageCompression_resume B rounds a e) as [r evs].
    apply IH. eapply same_frame_trans; [exact He | exact Hr]. }
  intros acc. apply Hgen, same_frame_refl.
Qed.

(** After a [load] event no listener registered with [once] is left. *)
Lemma dispatchLoad_listeners (rounds : nat) (img : Element) :
  listeners (dispatchLoad B rounds img).1
  = List.filter (fun l => negb (once l)) (listeners img).
Proof.
  unfold dispatchLoad. cbn [fst].
  destruct (resumeAll_frame rounds
              (runListeners B (listeners img) (loadedElement img)).1.2
              (runListeners B (listeners img) (loadedElement img)).1.1)
    as (-> & _ & _).
  destruct (runListeners_frame (listeners img) (loadedElement img))
    as (-> & _ & _).
  reflexivity.
Qed.

(** A lone [once] listener: the [load] event runs its call of
    [applyImageCompression] on the loaded element. *)
Lemma dispatchLoad_once (rounds : nat) (img : Element) (options : Options) :
  listeners img = [] ->
  dispatchLoad B rounds
    (addEventListener {| once := true; handlerOptions := options |} img)
  = ((element_of
        (applyImageCompression B rounds (loadedElement img) options).1),
     (applyImageCompression B rounds (loadedElement img) options).2).
Proof.
  intros Hl. unfold dispatchLoad, addEventListener, loadedElement.
  cbn [listeners]. rewrite Hl.
  unfold runListeners, resumeAll, applyImageCompression.
  cbn [app List.filter once negb foldl fst snd handlerOptions].
  destruct (applyImageCompression_begin B _ options) as [[e1 [a|]] evs];
    simpl.
  - destruct (applyImageCompression_resume B rounds a e1) as [r evs'].
    reflexivity.
  - rewrite app_nil_r. reflexivity.
Qed.

(** With no listener left, a [load] event runs nothing. *)
Lemma dispatchLoad_idle (rounds : nat) (img : Element) :
  listeners img = [] -> complete img = true ->
  dispatchLoad B rounds img = (img, []).
Proof.
  intros Hl Hc. unfold dispatchLoad, loadedElement. rewrite Hl. simpl.
  destruct img; simpl in *; subst; reflexivity.
Qed.

End CompressAllFacts.

(** C8.  [compressAllImages] leaves alone every element that the selector
    (['img'] unless the options give one) does not match and every matched
    element of class [logo].  On a matched element that has loaded it
    calls [applyImageCompression] at once, with the merged options.  To a
    matched element that has not loaded it only adds a [load] listener
    registered with [once]: the element's next [load] event runs the call,
    the listener is gone after it, and a further [load] event runs
    nothing. *)
Theorem compressAllImages_applies_or_defers (B : Browser)
    (matchesSelector : string -> Element -> bool) (rounds : nat)
    (doc : list Element) (options : Options) (i : nat) (img : Element) :
  doc !! i = Some img ->
  let finalOptions := spread defaultOptions options in
  let selected := matchesSelector (default "img" (opt_selector options)) img in
  let exempt := contains "logo" (classList img) in
  let listener := {| once := true; handlerOptions := finalOptions |} in
  exists img',
    (compressAllImages B matchesSelector rounds doc options).1 !! i = Some img'
    /\ img' = (if negb selected || exempt then img
               else if complete img
                    then element_of
                           (applyImageCompression B rounds img finalOptions).1
                    else addEventListener listener img)
    /\ (selected = true -> exempt = false -> complete img = false ->
        listeners (dispatchLoad B rounds img').1
        = List.filter (fun l => negb (once l)) (listeners img)
        /\ (listeners img = [] ->
            dispatchLoad B rounds img'
            = (element_of
                 (applyImageCompression B rounds (loadedElement img)
                    finalOptions).1,
               (applyImageCompression B rounds (loadedElement img)
                  finalOptions).2)
            /\ dispatchLoad B rounds (dispatchLoad B rounds img').1
               = ((dispatchLoad B rounds img').1, []))).
Proof.
  intros Hi finalOptions selected exempt listener.
  eexists. split; [|split; [reflexivity|]].
  - unfold compressAllImages.
    rewrite forEach_lookup by apply querySelectorAll_NoDup.
    rewrite spread_selector, Hi. fold finalOptions. simpl.
    pose proof (querySelectorAll_elem matchesSelector
                  (default "img" (opt_selector options)) doc i img Hi) as Hsel.
    fold selected in Hsel.
    destruct selected.
    + rewrite decide_True by (apply Hsel; reflexivity).
      unfold visitImage. fold exempt. simpl.
      destruct exempt; [reflexivity|].
      destruct (complete img); [|reflexivity].
      destruct (applyImageCompression B rounds img finalOptions).
      reflexivity.
    + rewrite decide_False by (rewrite Hsel; discriminate). reflexivity.
  - intros Hs He Hc. rewrite Hs, He, Hc. cbn [negb orb]. unfold listener.
    split.
    + rewrite dispatchLoad_listeners. cbn [addEventListener listeners].
      rewrite List.filter_app. cbn [List.filter once negb]. apply app_nil_r.
    + intros Hl.
      rewrite (dispatchLoad_once B rounds img finalOptions Hl).
      split; [reflexivity|]. cbn [fst].
      destruct (apply_frame B rounds (loadedElement img) finalOptions)
        as (Hls & Hcs & _).
      apply dispatchLoad_idle.
      * rewrite Hls. simpl. rewrite Hl. reflexivity.
      * rewrite Hcs. reflexivity.
Qed.

Lemma compressAllImages_applies_or_defers_witness :
  exists img',
    (compressAllImages Demo.friendly Demo.selectImg 1 Demo.page noOptions).1
      !! 2%nat = Some img'
    /\ listeners img'
       = [{| once := true;
             handlerOptions := spread defaultOptions noOptions |}]
    /\ listeners (dispatchLoad Demo.friendly 1 img').1 = []
    /\ dataset (dispatchLoad Demo.friendly 1 img').1 !! "compressed"
       = Some "true"
    /\ dispatchLoad Demo.friendly 1 (dispatchLoad Demo.friendly 1 img').1
       = ((dispatchLoad Demo.friendly 1 img').1, []).
Proof.
  pose proof (compressAllImages_applies_or_defers
                Demo.friendly Demo.selectImg 1 Demo.page noOptions 2
                (Demo.image "/img/slide.jpg" false ["slide"]) eq_refl) as H.
  cbv zeta in H.
  destruct H as (img' & Hlookup & Himg & Hdeferred).
  destruct (Hdeferred eq_refl eq_refl eq_refl) as [Hgone Hrun].
  destruct (Hrun eq_refl) as [Hcall Hidle].
  exists img'. split; [exact Hlookup|].
  split; [rewrite Himg; reflexivity|].
  split; [exact Hgone|].
  split; [rewrite Hcall; reflexivity | exact Hidle].
Defined.

(** * Further properties of the code *)

(** ** What [compressImage] resolves with, and when *)

Section CompressImageMore.

Variable B : Browser.
Variables (imageSrc : string) (maxWidth maxHeight quality : Q).

Local Open Scope Q_scope.

(** The handler issues no load of its own. *)
Lemma onload_no_load (w h : N) (url : string) (mode : bool) :
  EvLoad url mode ∉ (onload B imageSrc maxWidth maxHeight quality w h).2.
Proof.
  unfold onload.
  destruct (isSmall _ _ _ _); simpl; [apply not_elem_of_nil|].
  destruct (scaledSize _ _ _ _) as [cw ch].
  unfold encode, Try.bind, Try.emit, Try.ret, Try.throw, Try.catch.
  destruct (getContext2d B cw ch);
    [destruct (drawImage B imageSrc cw ch);
     [destruct (toDataURL B imageSrc cw ch _ _)|]|];
    simpl; intros H;
    repeat (apply elem_of_cons in H as [H|H]; [discriminate H|]);
    inversion H.
Qed.

(** Every canvas the handler sizes has the size computed by the scaling
    block. *)
Lemma onload_canvas_event (w h : N) (cw ch : Q) :
  EvCanvas cw ch ∈ (onload B imageSrc maxWidth maxHeight quality w h).2 ->
  scaledSize (JsNum.of_N w) (JsNum.of_N h) maxWidth maxHeight = (cw, ch).
Proof.
  unfold onload.
  destruct (isSmall _ _ _ _); simpl; [intros H; inversion H|].
  destruct (scaledSize _ _ _ _) as [cw' ch'].
  unfold encode, Try.bind, Try.emit, Try.ret, Try.throw, Try.catch.
  destruct (getContext2d B cw' ch');
    [destruct (drawImage B imageSrc cw' ch');
     [destruct (toDataURL B imageSrc cw' ch' _ _)|]|];
    simpl; intros H;
    repeat (apply elem_of_cons in H as [H|H]; [try discriminate H|]);
    try (inversion H; fail);
    injection H as -> ->; reflexivity.
Qed.

Lemma compressImage_rec_value (rounds attempt : nat) (v : string) :
  (compressImage_rec B rounds attempt imageSrc maxWidth maxHeight quality).1
  = Resolved v ->
  v = imageSrc
  \/ exists cw ch fmt ql, toDataURL B imageSrc cw ch fmt ql = Some v.
Proof.
  revert attempt. induction rounds as [|rounds IH]; intros attempt.
  - discriminate.
  - rewrite compressImage_rec_S.
    destruct (load B attempt imageSrc (crossOriginAnonymous B imageSrc))
      as [|w h].
    + destruct (crossOriginAnonymous B imageSrc).
      * destruct (load B attempt imageSrc false) as [|w' h'].
        -- simpl. intros H. injection H as <-. left. reflexivity.
        -- simpl. specialize (IH (S attempt)).
           destruct (compressImage_rec B rounds (S attempt) imageSrc
                       maxWidth maxHeight quality).1 as [| v' |].
           ++ discriminate.
           ++ intros H. injection H as <-. apply IH. reflexivity.
           ++ intros H. injection H as <-. left. reflexivity.
      * simpl. intros H. injection H as <-. left. reflexivity.
    + simpl. intros H. injection H as <-.
      apply (onload_value B imageSrc maxWidth maxHeight quality w h).
Qed.

(** X1.  The promise of [compressImage] is never rejected, and a value it
    is resolved with is either the source it was given or a string that
    [canvas.toDataURL] returned for that source. *)
Theorem compressImage_resolves_source_or_encoding (rounds : nat) :
  (compressImage B rounds imageSrc maxWidth maxHeight quality).1 <> Rejected
  /\ forall v,
       (compressImage B rounds imageSrc maxWidth maxHeight quality).1
       = Resolved v ->
       v = imageSrc
       \/ exists cw ch fmt ql, toDataURL B imageSrc cw ch fmt ql = Some v.
Proof.
  split.
  - apply compressImage_rec_never_rejects.
  - intros v. apply compressImage_rec_value.
Qed.

(** X2.  A source that is a [data:] URL, starts with ["/"] or ["./"],
    contains no ["://"], or starts with the page's origin is loaded
    without the cross-origin mode, once: whatever the load and the canvas
    do, the promise is resolved after that one load and no other load is
    issued. *)
Theorem local_source_settles_after_one_load (rounds : nat) :
  JsString.startsWith imageSrc "data:" = true
  \/ JsString.startsWith imageSrc "/" = true
  \/ JsString.startsWith imageSrc "./" = true
  \/ JsString.includes imageSrc "://" = false
  \/ JsString.startsWith imageSrc (origin B) = true ->
  crossOriginAnonymous B imageSrc = false
  /\ exists v evs,
       compressImage B (S rounds) imageSrc maxWidth maxHeight quality
       = (Resolved v, EvLoad imageSrc false :: evs)
       /\ forall url mode, EvLoad url mode ∉ evs.
Proof.
  intros Hlocal.
  assert (Ha : crossOriginAnonymous B imageSrc = false).
  { unfold crossOriginAnonymous.
    destruct Hlocal as [H|[H|[H|[H|H]]]]; rewrite H; simpl;
      rewrite ?andb_false_r; reflexivity. }
  split; [exact Ha|].
  unfold compressImage. rewrite compressImage_rec_S, Ha.
  destruct (load B 0 imageSrc false) as [|w h].
  - exists imageSrc, [EvWarn]. split; [reflexivity|].
    intros url mode H. apply elem_of_cons in H as [H|H];
      [discriminate H | inversion H].
  - eexists _, _. split; [reflexivity|].
    intros url mode. apply onload_no_load.
Qed.

(** X3.  When the image has loaded and is not small, a canvas that fails
    at any step (no 2d context, [drawImage] throws, [toDataURL] throws)
    makes the promise resolve with the original source, after a
    warning. *)
Theorem canvas_failure_resolves_with_source (rounds : nat) (w h : N) :
  let size := scaledSize (JsNum.of_N w) (JsNum.of_N h) maxWidth maxHeight in
  let resize := shouldResize (JsNum.of_N w) (JsNum.of_N h)
                             maxWidth maxHeight in
  load B 0 imageSrc (crossOriginAnonymous B imageSrc) = Loaded w h ->
  isSmall (JsNum.of_N w) (JsNum.of_N h) maxWidth maxHeight = false ->
  getContext2d B size.1 size.2 = false
  \/ drawImage B imageSrc size.1 size.2 = false
  \/ toDataURL B imageSrc size.1 size.2 (outputFormat imageSrc resize)
               (outputQuality imageSrc resize quality) = None ->
  exists evs,
    compressImage B (S rounds) imageSrc maxWidth maxHeight quality
    = (Resolved imageSrc,
       EvLoad imageSrc (crossOriginAnonymous B imageSrc)
         :: EvCanvas size.1 size.2 :: evs ++ [EvWarn]).
Proof.
  intros size resize Hl Hs Hfail.
  rewrite (compressImage_loaded B imageSrc maxWidth maxHeight quality
             rounds w h Hl).
  unfold onload. rewrite Hs. fold size resize.
  destruct size as [cw ch]. simpl in Hfail |- *.
  unfold encode, Try.bind, Try.emit, Try.ret, Try.throw, Try.catch.
  destruct (getContext2d B cw ch);
    [destruct (drawImage B imageSrc cw ch);
     [destruct (toDataURL B imageSrc cw ch _ _)|]|]; simpl.
  - destruct Hfail as [H|[H|H]]; discriminate H.
  - exists [EvDraw cw ch; EvEncode (outputFormat imageSrc resize)
                              (outputQuality imageSrc resize quality)].
    reflexivity.
  - exists [EvDraw cw ch]. reflexivity.
  - exists []. reflexivity.
Qed.

End CompressImageMore.

Lemma compressImage_resolves_source_or_encoding_witness :
  "data:image/jpeg;base64,/9j/4AAQ" = "/img/banner.jpg"
  \/ exists cw ch fmt ql,
       toDataURL Demo.friendly "/img/banner.jpg" cw ch fmt ql
       = Some "data:image/jpeg;base64,/9j/4AAQ".
Proof.
  destruct (compressImage_resolves_source_or_encoding
              Demo.friendly "/img/banner.jpg" 1920 1920 0.8 1) as [_ H].
  apply H. reflexivity.
Defined.

Lemma local_source_settles_after_one_load_witness :
  crossOriginAnonymous Demo.noCors "https://example.org/img/a.jpg" = false
  /\ exists v evs,
       compressImage Demo.noCors 1 "https://example.org/img/a.jpg"
                     1920 1920 0.8
       = (Resolved v, EvLoad "https://example.org/img/a.jpg" false :: evs)
       /\ forall url mode, EvLoad url mode ∉ evs.
Proof.
  apply (local_source_settles_after_one_load
           Demo.noCors "https://example.org/img/a.jpg" 1920 1920 0.8 0).
  do 4 right. reflexivity.
Defined.

Lemma canvas_failure_resolves_with_source_witness :
  exists evs,
    compressImage Demo.tainted 1 "https://cdn.example.com/photo.jpg"
                  1920 1920 0.8
    = (Resolved "https://cdn.example.com/photo.jpg",
       EvLoad "https://cdn.example.com/photo.jpg" true
         :: EvCanvas (JsNum.of_N 1000) (JsNum.of_N 900) :: evs ++ [EvWarn]).
Proof.
  apply (canvas_failure_resolves_with_source
           Demo.tainted "https://cdn.example.com/photo.jpg" 1920 1920 0.8
           0 1000 900).
  - reflexivity.
  - reflexivity.
  - right. right. reflexivity.
Defined.

(** ** More on the size of the canvas *)

Section CanvasSizeMore.

Variable B : Browser.
Variables (imageSrc : string) (quality : Q).

Local Open Scope Q_scope.

(** Scaling by a ratio of at most one does not enlarge. *)
Lemma scale_shrinks (a b m : Q) : 0 <= a -> m <= b -> 0 < b -> a * m / b <= a.
Proof.
  intros Ha Hm Hb. apply Qle_shift_div_r; [exact Hb|].
  rewrite !(Qmult_comm a). apply Qmult_le_compat_r; assumption.
Qed.

(** The size after the scaling block, whether or not it was entered. *)
Lemma scaledSize_cases (maxWidth maxHeight w h : Q) :
  scaling maxWidth maxHeight w h (scaledSize w h maxWidth maxHeight)
  \/ (scaledSize w h maxWidth maxHeight = (w, h)
      /\ w <= maxWidth /\ h <= maxHeight).
Proof.
  destruct (shouldResize w h maxWidth maxHeight) eqn:Hr.
  - left. apply scaledSize_scaling, Hr.
  - right. split; [unfold scaledSize; rewrite Hr; reflexivity|].
    apply shouldResize_false, Hr.
Qed.

(** Every canvas in a trace of [compressImage] is that of an image that
    loaded, at the size the scaling block computes for it. *)
Lemma compressImage_canvas_event (maxWidth maxHeight : Q) (rounds : nat)
    (cw ch : Q) :
  EvCanvas cw ch
    ∈ (compressImage B rounds imageSrc maxWidth maxHeight quality).2 ->
  exists k w h,
    load B k imageSrc (crossOriginAnonymous B imageSrc) = Loaded w h
    /\ scaledSize (JsNum.of_N w) (JsNum.of_N h) maxWidth maxHeight = (cw, ch).
Proof.
  intros Hin.
  apply compressImage_rec_events in Hin
    as [[mode Hin] | [Hin | (k & w & h & Hl & Hin)]]; try discriminate Hin.
  exists k, w, h. split; [exact Hl|].
  eapply onload_canvas_event, Hin.
Qed.

(** X4.  With one and the same whole number as the bound for width and
    height, as in the defaults 1920 and 1920, every canvas [compressImage]
    sizes fits the box: neither dimension exceeds the bound. *)
Theorem equal_bounds_canvas_fits (bound : N) (rounds : nat) (cw ch : Q) :
  EvCanvas cw ch
    ∈ (compressImage B rounds imageSrc (JsNum.of_N bound) (JsNum.of_N bound)
         quality).2 ->
  cw <= JsNum.of_N bound /\ ch <= JsNum.of_N bound.
Proof.
  intros Hin. pose proof (of_N_nonneg bound) as Hb.
  apply compressImage_canvas_event in Hin as (k & w & h & _ & Hsz).
  destruct (scaledSize_cases (JsNum.of_N bound) (JsNum.of_N bound)
              (JsNum.of_N w) (JsNum.of_N h))
    as [Hs | (E & Hw & Hh)].
  - pose proof (scaling_bound (JsNum.of_N bound) (JsNum.of_N bound) _ _ _
                  Hb Hb (of_N_nonneg w) (of_N_nonneg h) Hs) as Hbound.
    rewrite Hsz in Hbound. simpl in Hbound.
    destruct (JsNum.gt (JsNum.of_N w) (JsNum.of_N h));
      destruct Hbound as [H1 H2]; split;
      first [exact H1 | apply Qle_trans with (1 := H2); exact H1].
  - rewrite E in Hsz. injection Hsz as <- <-. split; assumption.
Qed.

(** X5.  [compressImage] never enlarges: with bounds that are not
    negative, every canvas it sizes is at most as wide and at most as high
    as the image that loaded. *)
Theorem canvas_never_larger_than_image (maxWidth maxHeight : Q)
    (rounds : nat) (cw ch : Q) :
  0 <= maxWidth -> 0 <= maxHeight ->
  EvCanvas cw ch
    ∈ (compressImage B rounds imageSrc maxWidth maxHeight quality).2 ->
  exists k w h,
    load B k imageSrc (crossOriginAnonymous B imageSrc) = Loaded w h
    /\ cw <= JsNum.of_N w /\ ch <= JsNum.of_N h.
Proof.
  intros HmW HmH Hin.
  apply compressImage_canvas_event in Hin as (k & w & h & Hl & Hsz).
  exists k, w, h. split; [exact Hl|].
  pose proof (of_N_nonneg w) as Hw. pose proof (of_N_nonneg h) as Hh.
  destruct (scaledSize_cases maxWidth maxHeight (JsNum.of_N w) (JsNum.of_N h))
    as [Hs | (E & _ & _)].
  - inversion Hs as [Hwh HwM E | Hwh HhM E | Hno E];
      rewrite Hsz in E; injection E as <- <-.
    + rewrite gt_true in Hwh. rewrite gt_true in HwM.
      split; [apply Qlt_le_weak; exact HwM|].
      apply scale_shrinks; [exact Hh | apply Qlt_le_weak; exact HwM |].
      apply Qle_lt_trans with (JsNum.of_N h); assumption.
    + rewrite gt_true in HhM.
      split; [|apply Qlt_le_weak; exact HhM].
      apply scale_shrinks; [exact Hw | apply Qlt_le_weak; exact HhM |].
      apply Qle_lt_trans with maxHeight; assumption.
    + split; apply Qle_refl.
  - rewrite E in Hsz. injection Hsz as <- <-. split; apply Qle_refl.
Qed.

(** X6.  When the larger dimension is within its bound and the smaller
    one exceeds its own, the scaling block changes nothing: the canvas has
    the image's size, one dimension still over its bound, and, resizing
    having been asked for, the encoding is JPEG at the given quality even
    for a source with [".png"] in it. *)
Theorem smaller_dimension_over_bound_is_kept (maxWidth maxHeight : Q)
    (w h : N) :
  (JsNum.of_N h < JsNum.of_N w /\ JsNum.of_N w <= maxWidth
   /\ maxHeight < JsNum.of_N h)
  \/ (JsNum.of_N w <= JsNum.of_N h /\ JsNum.of_N h <= maxHeight
      /\ maxWidth < JsNum.of_N w) ->
  shouldResize (JsNum.of_N w) (JsNum.of_N h) maxWidth maxHeight = true
  /\ (exists rest,
        (onload B imageSrc maxWidth maxHeight quality w h).2
        = EvCanvas (JsNum.of_N w) (JsNum.of_N h) :: rest)
  /\ forall fmt ql,
       EvEncode fmt ql ∈ (onload B imageSrc maxWidth maxHeight quality w h).2 ->
       fmt = Jpeg /\ ql = Some quality.
Proof.
  intros Hcase.
  assert (Hr : shouldResize (JsNum.of_N w) (JsNum.of_N h) maxWidth maxHeight
               = true).
  { unfold shouldResize. apply orb_true_iff.
    destruct Hcase as [(_ & _ & H) | (_ & _ & H)];
      [right | left]; apply gt_true; exact H. }
  assert (Hsz : scaledSize (JsNum.of_N w) (JsNum.of_N h) maxWidth maxHeight
                = (JsNum.of_N w, JsNum.of_N h)).
  { unfold scaledSize. rewrite Hr.
    destruct Hcase as [(Hwh & Hw & _) | (Hwh & Hh & _)].
    - rewrite (proj2 (gt_true _ _) Hwh), (proj2 (gt_false _ _) Hw).
      reflexivity.
    - rewrite (proj2 (gt_false _ _) Hwh), (proj2 (gt_false _ _) Hh).
      reflexivity. }
  split; [exact Hr|]. split.
  - destruct (onload_canvas B imageSrc maxWidth maxHeight quality w h
                (isSmall_oversized _ _ _ _ Hr)) as [rest Hrest].
    rewrite Hsz in Hrest. eauto.
  - intros fmt ql Hin. apply onload_encode_event in Hin as [Hf Hq].
    rewrite Hr in Hf, Hq. unfold outputQuality, outputFormat in *.
    rewrite andb_false_r in Hf, Hq. auto.
Qed.

End CanvasSizeMore.

Lemma equal_bounds_canvas_fits_witness :
  (JsNum.of_N 800 <= JsNum.of_N 800
   /\ JsNum.of_N 900 * JsNum.of_N 800 / JsNum.of_N 1000 <= JsNum.of_N 800)%Q.
Proof.
  apply (equal_bounds_canvas_fits
           Demo.friendly "/img/banner.jpg" 0.8 800 1
           (JsNum.of_N 800)
           (JsNum.of_N 900 * JsNum.of_N 800 / JsNum.of_N 1000)%Q).
  vm_compute. right. left.
Defined.

Lemma canvas_never_larger_than_image_witness :
  exists k w h,
    load Demo.friendly k "/img/banner.jpg"
         (crossOriginAnonymous Demo.friendly "/img/banner.jpg") = Loaded w h
    /\ (800 <= JsNum.of_N w)%Q
    /\ (JsNum.of_N 900 * 800 / JsNum.of_N 1000 <= JsNum.of_N h)%Q.
Proof.
  apply (canvas_never_larger_than_image
           Demo.friendly "/img/banner.jpg" 0.8 800 500 1 800
           (JsNum.of_N 900 * 800 / JsNum.of_N 1000)%Q).
  - discriminate.
  - discriminate.
  - vm_compute. right. left.
Defined.

Lemma smaller_dimension_over_bound_is_kept_witness :
  shouldResize (JsNum.of_N 1000) (JsNum.of_N 900) 1920 500 = true
  /\ onload Demo.friendly "/img/chart.png" 1920 500 0.8 1000 900
     = (Demo.dataUrl Jpeg,
        [EvCanvas (JsNum.of_N 1000) (JsNum.of_N 900);
         EvDraw (JsNum.of_N 1000) (JsNum.of_N 900);
         EvEncode Jpeg (Some 0.8%Q)]).
Proof.
  destruct (smaller_dimension_over_bound_is_kept
              Demo.friendly "/img/chart.png" 0.8 1920 500 1000 900)
    as (Hasked & _ & _).
  - left. split; [reflexivity|]. split; [discriminate | reflexivity].
  - split; [exact Hasked | reflexivity].
Defined.

(** ** What [applyImageCompression] writes, and what it leaves alone *)

Section ApplyMore.

Variable B : Browser.

(** X8.  A call that passes both guards and returns has, when the
    loading indicator is on (the default), assigned ["1"] to the opacity
    and ["opacity 0.5s ease"] to the transition of the element's style,
    in that order and after the ["0.5"] of line 147.  With
    [showLoading: false] it has assigned nothing to the style, which is
    as before. *)
Theorem returned_call_restores_opacity (rounds : nat) (el el' : Element)
    (options : Options) (evs : list event) :
  dataset el !! "compressed" <> Some "true" ->
  JsString.startsWith (src el) "data:image" = false ->
  applyImageCompression B rounds el options = (Returned el', evs) ->
  if default true (opt_showLoading options)
  then style el' !! "opacity" = Some "1"
       /\ style el' !! "transition" = Some "opacity 0.5s ease"
  else style el' = style el.
Proof.
  intros Hc Hd. rewrite (apply_past_guards B rounds el options Hc Hd).
  unfold applyImageCompression_resume, compressImage_handlers. simpl.
  pose proof (compressImage_never_rejects B (src el)
                (default 1920%Q (opt_maxWidth options))
                (default 1920%Q (opt_maxHeight options))
                (default 0.8%Q (opt_quality options)) rounds) as Hnr.
  destruct (compressImage B rounds _ _ _ _) as [[| v |] evs0];
    simpl in Hnr |- *; [discriminate | | contradiction].
  destruct (default true (opt_showLoading options));
    intros H; injection H as <- <-; simpl.
  - split.
    + rewrite lookup_insert_ne by discriminate. apply lookup_insert_eq.
    + apply lookup_insert_eq.
  - reflexivity.
Qed.

(** X9.  A call that is suspended at its [await], the promise of
    [compressImage] not being settled, has changed nothing but the
    opacity: the source and the data attributes are as before, the element
    is not marked compressed by this call, and with the loading indicator
    on it stays at opacity ["0.5"]. *)
Theorem suspended_call_leaves_element_dimmed (rounds : nat)
    (el el' : Element) (options : Options) (evs : list event) :
  applyImageCompression B rounds el options = (Suspended el', evs) ->
  (compressImage B rounds (src el)
     (default 1920%Q (opt_maxWidth options))
     (default 1920%Q (opt_maxHeight options))
     (default 0.8%Q (opt_quality options))).1 = Pending
  /\ src el' = src el
  /\ dataset el' = dataset el
  /\ style el'
     = (if default true (opt_showLoading options)
        then <["opacity" := "0.5"]> (style el) else style el).
Proof.
  unfold applyImageCompression, applyImageCompression_begin.
  destruct (decide _) as [_|_]; [discriminate|].
  destruct (JsString.startsWith (src el) "data:image"); [discriminate|].
  unfold applyImageCompression_resume, compressImage_handlers. simpl.
  destruct (compressImage B rounds _ _ _ _) as [[| v |] evs0]; simpl;
    [| discriminate | discriminate].
  intros H. injection H as <- <-.
  split; [reflexivity|].
  destruct (default true (opt_showLoading options)); repeat split.
Qed.

(** X10.  Whatever the outcome of a call, [applyImageCompression] assigns
    to no class, no listener and no data attribute other than
    [compressed] and [originalSrc]: the classes, the listeners and every
    other data attribute of the element are as before. *)
Theorem applyImageCompression_frame (rounds : nat) (el : Element)
    (options : Options) :
  let el' := element_of (applyImageCompression B rounds el options).1 in
  classList el' = classList el
  /\ listeners el' = listeners el
  /\ (forall k, k <> "compressed" -> k <> "originalSrc" ->
                dataset el' !! k = dataset el !! k).
Proof.
  intros el'.
  destruct (apply_frame B rounds el options) as (Hl & _ & Hcl).
  fold el' in Hl, Hcl.
  split; [exact Hcl|]. split; [exact Hl|].
  subst el'. unfold applyImageCompression, applyImageCompression_begin.
  destruct (decide _) as [_|_]; [reflexivity|].
  destruct (JsString.startsWith (src el) "data:image"); [reflexivity|].
  unfold applyImageCompression_resume, compressImage_handlers. simpl.
  destruct (compressImage B rounds _ _ _ _) as [[| v |] evs0];
    destruct (default true (opt_showLoading options)); simpl;
    intros k H1 H2;
    rewrite ?lookup_insert_ne by congruence; reflexivity.
Qed.

(** X11.  [compressImageForCarousel] never touches the style of the
    element, whatever the options say, [showLoading: true] included: the
    loading indicator is always off. *)
Theorem carousel_never_touches_style (rounds : nat) (el : Element)
    (options : Options) :
  style (element_of (compressImageForCarousel B rounds el options).1)
  = style el.
Proof.
  unfold compressImageForCarousel, applyImageCompression,
    applyImageCompression_begin.
  destruct (decide _) as [_|_]; [reflexivity|].
  destruct (JsString.startsWith (src el) "data:image"); [reflexivity|].
  unfold applyImageCompression_resume, compressImage_handlers. simpl.
  pose proof (compressImage_never_rejects B (src el)
                (default 1920%Q (opt_maxWidth options))
                (default 1920%Q (opt_maxHeight options))
                (default 0.8%Q (opt_quality options)) rounds) as Hnr.
  destruct (compressImage B rounds _ _ _ _) as [[| v |] evs0];
    simpl in Hnr |- *; [reflexivity | reflexivity | contradiction].
Qed.

(** X12.  Apart from the style, [compressImageForCarousel] does what
    [applyImageCompression] does with the same options: the same browser
    operations, the same kind of outcome, the same source and the same
    data attributes on the element. *)
Theorem carousel_agrees_with_apply (rounds : nat) (el : Element)
    (options : Options) :
  let r := compressImageForCarousel B rounds el options in
  let r' := applyImageCompression B rounds el options in
  r.2 = r'.2
  /\ same_outcome r.1 r'.1
  /\ src (element_of r.1) = src (element_of r'.1)
  /\ dataset (element_of r.1) = dataset (element_of r'.1).
Proof.
  unfold compressImageForCarousel, applyImageCompression,
    applyImageCompression_begin.
  destruct (decide _) as [_|_]; [simpl; repeat split|].
  destruct (JsString.startsWith (src el) "data:image");
    [simpl; repeat split|].
  unfold applyImageCompression_resume, compressImage_handlers. simpl.
  destruct (compressImage B rounds _ _ _ _) as [[| v |] evs0];
    destruct (default true (opt_showLoading options)); simpl;
    repeat split.
Qed.

End ApplyMore.

Lemma returned_call_restores_opacity_witness :
  let el := Demo.image "/img/banner.jpg" true [] in
  let el' := element_of (applyImageCompression Demo.friendly 1 el noOptions).1
  in
  style el' !! "opacity" = Some "1"
  /\ style el' !! "transition" = Some "opacity 0.5s ease".
Proof.
  intros el el'.
  apply (returned_call_restores_opacity Demo.friendly 1 el el' noOptions
           (applyImageCompression Demo.friendly 1 el noOptions).2).
  - vm_compute. discriminate.
  - reflexivity.
  - reflexivity.
Defined.

Lemma suspended_call_leaves_element_dimmed_witness :
  let el := Demo.image "https://cdn.example.com/photo.jpg" true [] in
  let el' := element_of (applyImageCompression Demo.noCors 3 el noOptions).1
  in
  (compressImage Demo.noCors 3 (src el) 1920 1920 0.8).1 = Pending
  /\ src el' = src el
  /\ dataset el' = dataset el
  /\ style el' = <["opacity" := "0.5"]> (style el).
Proof.
  intros el el'.
  apply (suspended_call_leaves_element_dimmed Demo.noCors 3 el el' noOptions
           (applyImageCompression Demo.noCors 3 el noOptions).2).
  reflexivity.
Defined.

(** X13.  On the retry loop of [compressImage] (the anonymous load fails
    and the plain load succeeds, every time), a call of
    [applyImageCompression] that passes both guards never returns: however
    many rounds are run it is suspended, the element unmarked, its source
    unchanged, and with the loading indicator on it stays at opacity
    ["0.5"]. *)
Theorem retry_loop_leaves_element_dimmed (B : Browser) (rounds : nat)
    (el : Element) (options : Options) :
  dataset el !! "compressed" <> Some "true" ->
  JsString.startsWith (src el) "data:image" = false ->
  crossOriginAnonymous B (src el) = true ->
  (forall k, load B k (src el) true = LoadError) ->
  (forall k, load B k (src el) false <> LoadError) ->
  (applyImageCompression B rounds el options).1
  = Suspended (if default true (opt_showLoading options)
               then set_style "opacity" "0.5" el else el).
Proof.
  intros Hc Hd Ha Hfail Hok.
  rewrite (apply_past_guards B rounds el options Hc Hd).
  unfold applyImageCompression_resume, compressImage_handlers. simpl.
  pose proof (compressImage_rec_retry_loop B (src el)
                (default 1920%Q (opt_maxWidth options))
                (default 1920%Q (opt_maxHeight options))
                (default 0.8%Q (opt_quality options)) rounds 0 Ha Hfail Hok)
    as Hp.
  unfold compressImage.
  destruct (compressImage_rec B rounds 0 _ _ _ _) as [p evs].
  simpl in Hp |- *. subst p. reflexivity.
Qed.

Lemma retry_loop_leaves_element_dimmed_witness :
  let el := Demo.image "https://cdn.example.com/photo.jpg" true [] in
  (applyImageCompression Demo.noCors 7 el noOptions).1
  = Suspended (set_style "opacity" "0.5" el).
Proof.
  intros el.
  apply (retry_loop_leaves_element_dimmed Demo.noCors 7 el noOptions).
  - vm_compute. discriminate.
  - reflexivity.
  - reflexivity.
  - reflexivity.
  - discriminate.
Defined.

(** ** More on [compressAllImages] *)

Section CompressAllMore.

Variable B : Browser.
Variable matchesSelector : string -> Element -> bool.

(** [forEach] keeps the length of the document. *)
Lemma forEach_length (f : Element -> Element * list event)
    (images : list nat) (doc : list Element) :
  length (forEach f images doc).1 = length doc.
Proof.
  unfold forEach. generalize (@nil event) as evs. revert doc.
  induction images as [|j images IH]; intros doc evs; cbn [foldl fst snd].
  - reflexivity.
  - destruct (doc !! j) as [e|]; [destruct (f e) as [e' evs']|];
      cbn [fst snd]; rewrite IH; [apply length_insert | reflexivity].
Qed.

(** [forEach] performs nothing when no visit does. *)
Lemma forEach_silent (f : Element -> Element * list event)
    (images : list nat) (doc : list Element) :
  NoDup images ->
  (forall i e, i ∈ images -> doc !! i = Some e -> (f e).2 = []) ->
  (forEach f images doc).2 = [].
Proof.
  assert (Hgen : forall (images : list nat) (doc : list Element)
                          (evs : list event),
            NoDup images ->
            (forall i e, i ∈ images -> doc !! i = Some e -> (f e).2 = []) ->
            (foldl (fun st i =>
                      match st.1 !! i with
                      | Some img => let '(img', evs') := f img in
                                    (<[i := img']> st.1, st.2 ++ evs')
                      | None => st
                      end) (doc, evs) images).2 = evs).
  { clear images doc. intros images.
    induction images as [|j images IH]; intros doc evs Hnd Hq;
      cbn [foldl fst snd]; [reflexivity|].
    apply NoDup_cons in Hnd as [Hj Hnd].
    destruct (doc !! j) as [e|] eqn:Hdj.
    - pose proof (Hq j e (list_elem_of_here _ _) Hdj) as He.
      destruct (f e) as [e' evs'] eqn:Hf. simpl in He. subst evs'.
      cbn [fst snd]. rewrite app_nil_r. apply IH; [exact Hnd|].
      intros i e0 Hin Hi. apply (Hq i e0).
      + apply list_elem_of_further, Hin.
      + rewrite list_lookup_insert_ne in Hi; [exact Hi|].
        intros ->. contradiction.
    - apply IH; [exact Hnd|].
      intros i e0 Hin Hi. apply (Hq i e0); [|exact Hi].
      apply list_elem_of_further, Hin. }
  intros Hnd Hq. unfold forEach. apply Hgen; assumption.
Qed.

(** What [compressAllImages] leaves at each position. *)
Lemma compressAllImages_lookup (rounds : nat) (doc : list Element)
    (options : Options) (i : nat) (img : Element) :
  doc !! i = Some img ->
  (compressAllImages B matchesSelector rounds doc options).1 !! i
  = Some (if matchesSelector (default "img" (opt_selector options)) img
          then (visitImage B rounds (spread defaultOptions options) img).1
          else img).
Proof.
  intros Hi. unfold compressAllImages.
  rewrite forEach_lookup by apply querySelectorAll_NoDup.
  rewrite spread_selector, Hi.
  pose proof (querySelectorAll_elem matchesSelector
                (default "img" (opt_selector options)) doc i img Hi) as Hsel.
  destruct (matchesSelector (default "img" (opt_selector options)) img).
  - rewrite decide_True by (apply Hsel; reflexivity). reflexivity.
  - rewrite decide_False by (rewrite Hsel; discriminate). reflexivity.
Qed.

(** X14.  When every matched element is a logo or has not loaded yet,
    [compressAllImages] asks the browser for nothing: no load, no canvas,
    no encoding during the call; in particular on a page where nothing
    matches, and on an empty page. *)
Theorem compressAllImages_silent_while_loading (rounds : nat)
    (doc : list Element) (options : Options) :
  (forall img,
     img ∈ doc ->
     matchesSelector (default "img" (opt_selector options)) img = true ->
     contains "logo" (classList img) = true \/ complete img = false) ->
  (compressAllImages B matchesSelector rounds doc options).2 = [].
Proof.
  intros Hall. unfold compressAllImages.
  apply forEach_silent; [apply querySelectorAll_NoDup|].
  intros i e Hin Hi. rewrite spread_selector in Hin.
  apply (querySelectorAll_elem matchesSelector _ doc i e Hi) in Hin.
  unfold visitImage.
  destruct (Hall e (list_elem_of_lookup_2 _ _ _ Hi) Hin) as [Hlogo|Hc].
  - rewrite Hlogo. reflexivity.
  - rewrite Hc. destruct (contains "logo" (classList e)); reflexivity.
Qed.

End CompressAllMore.

Lemma compressAllImages_silent_while_loading_witness :
  (compressAllImages Demo.friendly Demo.selectImg 1
     [Demo.image "/img/logo.png" true ["logo"];
      Demo.image "/img/slide.jpg" false ["slide"]] noOptions).2 = [].
Proof.
  apply (compressAllImages_silent_while_loading
           Demo.friendly Demo.selectImg).
  intros img Hin _.
  apply elem_of_cons in Hin as [->|Hin]; [left; reflexivity|].
  apply elem_of_cons in Hin as [->|Hin]; [right; reflexivity|].
  inversion Hin.
Defined.

(** ** Calling [compressAllImages] twice *)

Section CompressAllTwice.

Variable B : Browser.
Variable matchesSelector : string -> Element -> bool.




(** A visited element whose call returned is left alone by a later
    visit. *)
Lemma visitImage_settled (rounds rounds' : nat) (final final' : Options)
    (img : Element) :
  (contains "logo" (classList img) = false ->
   complete img = true
   /\ exists e' evs,
        applyImageCompression B rounds img final = (Returned e', evs)) ->
  visitImage B rounds' final' (visitImage B rounds final img).1
  = ((visitImage B rounds final img).1, []).
Proof.
  intros H.
  destruct (contains "logo" (classList img)) eqn:Hlogo.
  - assert (E : visitImage B rounds final img = (img, []))
      by (unfold visitImage; rewrite Hlogo; reflexivity).
    rewrite E. cbn [fst]. unfold visitImage. rewrite Hlogo. reflexivity.
  - destruct (H eq_refl) as (Hc & e' & evs & Hrun).
    assert (E : visitImage B rounds final img = (e', evs))
      by (unfold visitImage; rewrite Hlogo, Hc, Hrun; reflexivity).
    rewrite E. cbn [fst].
    destruct (apply_frame B rounds img final) as (_ & Hc' & Hcl').
    rewrite Hrun in Hc', Hcl'. cbn [fst element_of] in Hc', Hcl'.
    unfold visitImage. rewrite Hcl', Hlogo, Hc', Hc.
    rewrite (apply_returned_skips B rounds img e' final evs Hrun).
    reflexivity.
Qed.

(** X16.  On a page where every matched element that is not a logo has
    loaded and its call of [applyImageCompression] has returned, a second
    run of [compressAllImages] changes nothing and asks the browser for
    nothing, whatever it is given as rounds. *)
Theorem compressAllImages_second_run_is_idle (rounds rounds' : nat)
    (doc : list Element) (options : Options) :
  (forall img,
     img ∈ doc ->
     matchesSelector (default "img" (opt_selector options)) img = true ->
     contains "logo" (classList img) = false ->
     complete img = true
     /\ exists e' evs,
          applyImageCompression B rounds img (spread defaultOptions options)
          = (Returned e', evs)) ->
  let doc1 := (compressAllImages B matchesSelector rounds doc options).1 in
  compressAllImages B matchesSelector rounds' doc1 options = (doc1, []).
Proof.
  intros Hall doc1.
  set (sel := default "img" (opt_selector options)) in *.
  set (final := spread defaultOptions options) in *.
  assert (Hlen : length doc1 = length doc)
    by (unfold doc1, compressAllImages; apply forEach_length).
  assert (Hprov : forall i e1,
            doc1 !! i = Some e1 ->
            matchesSelector sel e1 = true ->
            visitImage B rounds' final e1 = (e1, [])).
  { intros i e1 Hi1 Hm1.
    assert (Hlt : (i < length doc)%nat)
      by (rewrite <- Hlen; eapply lookup_lt_Some, Hi1).
    apply lookup_lt_is_Some in Hlt as [img Hi].
    unfold doc1 in Hi1.
    rewrite (compressAllImages_lookup B matchesSelector rounds doc options
               i img Hi) in Hi1.
    fold sel final in Hi1. injection Hi1 as <-.
    destruct (matchesSelector sel img) eqn:Hm.
    - apply visitImage_settled.
      apply (Hall img (list_elem_of_lookup_2 _ _ _ Hi) Hm).
    - rewrite Hm in Hm1. discriminate Hm1. }
  destruct (compressAllImages B matchesSelector rounds' doc1 options)
    as [doc2 evs2] eqn:Hrun.
  f_equal.
  - apply list_eq. intros i.
    change doc2 with (doc2, evs2).1. rewrite <- Hrun.
    destruct (doc1 !! i) as [e1|] eqn:Hi1.
    + rewrite (compressAllImages_lookup B matchesSelector rounds' doc1
                 options i e1 Hi1).
      fold sel final.
      destruct (matchesSelector sel e1) eqn:Hm1; [|reflexivity].
      rewrite (Hprov i e1 Hi1 Hm1). reflexivity.
    + apply lookup_ge_None. apply lookup_ge_None in Hi1.
      unfold compressAllImages. rewrite forEach_length. exact Hi1.
  - change evs2 with (doc2, evs2).2. rewrite <- Hrun.
    unfold compressAllImages.
    apply forEach_silent; [apply querySelectorAll_NoDup|].
    intros i e1 Hin Hi1. rewrite spread_selector in Hin.
    apply (querySelectorAll_elem matchesSelector _ doc1 i e1 Hi1) in Hin.
    fold sel final. rewrite (Hprov i e1 Hi1 Hin). reflexivity.
Qed.

End CompressAllTwice.


Lemma compressAllImages_second_run_is_idle_witness :
  let doc := [Demo.image "/img/logo.png" true ["logo"];
              Demo.image "/img/banner.jpg" true []] in
  let doc1 :=
    (compressAllImages Demo.friendly Demo.selectImg 1 doc noOptions).1 in
  compressAllImages Demo.friendly Demo.selectImg 5 doc1 noOptions
  = (doc1, []).
Proof.
  intros doc doc1.
  apply (compressAllImages_second_run_is_idle
           Demo.friendly Demo.selectImg 1 5 doc noOptions).
  intros img Hin _ Hlogo.
  apply elem_of_cons in Hin as [->|Hin]; [discriminate Hlogo|].
  apply elem_of_cons in Hin as [->|Hin]; [|inversion Hin].
  split; [reflexivity|].
  exists (element_of
            (applyImageCompression Demo.friendly 1
               (Demo.image "/img/banner.jpg" true [])
               (spread defaultOptions noOptions)).1),
         (applyImageCompression Demo.friendly 1
            (Demo.image "/img/banner.jpg" true [])
            (spread defaultOptions noOptions)).2.
  reflexivity.
Defined.
